(** * python-mip, [mip/model.py]: linear expressions, variables, the cut pool
      and the model orchestrator, embedded from the Python source.

    Conventions of the embedding.
    - Python numbers ([int] and [float]) are exact rationals [Q]; this is
      exact on integers, and rounding of floats is not modelled.
    - A method that mutates [self] returns the new state of [self].
    - A Python exception is a [Raise] in the [result] monad.
    - A Python string is the sequence of its code points; a character of a
      [string] here is one code point below 256, so text with code points
      from 256 on is not modelled.
    - A Python object has an identity besides its fields: a variable handle
      carries the address the interpreter gave it ([Var_addr]), and
      [x is y] is equality of the whole record. *)

From Stdlib Require Import ZArith Zpow_facts QArith Qabs Lia Ascii String.
From stdpp Require Import base option list gmap strings pretty.

Open Scope string_scope.
Open Scope list_scope.

(** ** Exceptions and the result monad *)

Inductive exn : Type :=
  | RecursionError
  | AssertionError
  | AttributeError (attr : string)
  | IndexError
  | KeyError
  | TypeError
  | SolutionNotAvailable (msg : string).

Inductive result (A : Type) : Type :=
  | Ok (a : A)
  | Raise (e : exn).
Arguments Ok {A} a.
Arguments Raise {A} e.

#[global] Instance result_ret : MRet result := fun A a => Ok a.
#[global] Instance result_bind : MBind result := fun A B f r =>
  match r with Ok a => f a | Raise e => Raise e end.

(** ** Constants of [mip.constants] *)

(** Modelled from the spec: [EPS] is imported from [mip.constants], which is
    not among the sources; the spec gives the tolerance as 1e-8. *)
Definition EPS : Q := 1 # 100000000.

(** Modelled from the spec: the sense tags of [mip.constants]; they are the
    one-character strings that [__le__] and [__ge__] of this file store. *)
Definition LESS_OR_EQUAL : string := "<".
Definition GREATER_OR_EQUAL : string := ">".
Definition EQUAL : string := "=".

(** Modelled from the spec: the optimization statuses of [mip.constants]
    (section 4.5 of the spec lists the nine states); the source compares
    [model.status] with these constants. *)
Inductive OptimizationStatus : Type :=
  | ERROR | OPTIMAL | INFEASIBLE | UNBOUNDED | FEASIBLE
  | INT_INFEASIBLE | NO_SOLUTION_FOUND | LOADED | CUTOFF.

#[global] Instance OptimizationStatus_eq_dec : EqDecision OptimizationStatus.
Proof. solve_decision. Defined.

(** ** class Var: the handle *)

Record Var : Type := mkVar {
  Var_model : nat;     (* self.model: the address of the owning model *)
  Var_idx : Z;         (* self.idx *)
  Var_name : string;   (* self.name *)
  Var_addr : nat       (* identity of the handle object *)
}.

#[global] Instance Var_eq_dec : EqDecision Var.
Proof. solve_decision. Defined.

(** [x is y] *)
Definition Var_is (x y : Var) : bool := bool_decide (x = y).

(** [Var.__hash__]: [return self.idx] *)
Definition Var___hash__ (self : Var) : Z := Var_idx self.

(** ** class LinExpr: the data *)

(** [self.expr] is a dict from handles to coefficients; Python dicts keep
    insertion order, and [__hash__] and [__str__] read that order, so the
    dict is the list of its items in insertion order. *)
Definition dict : Type := list (Var * Q).

Record LinExpr : Type := mkLinExpr {
  const : Q;
  expr : dict;
  sense : string
}.

Definition set_const (e : LinExpr) (c : Q) : LinExpr :=
  {| const := c; expr := expr e; sense := sense e |}.
Definition set_expr (e : LinExpr) (d : dict) : LinExpr :=
  {| const := const e; expr := d; sense := sense e |}.
Definition set_sense (e : LinExpr) (s : string) : LinExpr :=
  {| const := const e; expr := expr e; sense := s |}.

(** What the arithmetic operators dispatch on with [isinstance]. *)
Inductive operand : Type :=
  | OVar (v : Var)
  | OExpr (e : LinExpr)
  | ONum (k : Q)
  | OOther.

(** ** Dict operations and the expression algebra

    A dict lookup compares the stored key with the looked-up key: first by
    identity, then, when the hashes agree, with [==].  For handles [==] is
    [Var.__eq__], which is Python code of this file; the section takes the
    truth value of that call as [key_eq] and the knot is tied below. *)

Section Algebra.

Variable key_eq : Var -> Var -> result bool.

Definition same_key (stored key : Var) : result bool :=
  if Var_is stored key then Ok true
  else if (Var___hash__ stored =? Var___hash__ key)%Z then key_eq stored key
  else Ok false.

(** [key in d] *)
Fixpoint dict_contains (d : dict) (key : Var) : result bool :=
  match d with
  | [] => Ok false
  | (k, _) :: d' =>
      b ← same_key k key;
      if b : bool then Ok true else dict_contains d' key
  end.

(** [d[key]] *)
Fixpoint dict_getitem (d : dict) (key : Var) : result Q :=
  match d with
  | [] => Raise KeyError
  | (k, c) :: d' =>
      b ← same_key k key;
      if b : bool then Ok c else dict_getitem d' key
  end.

(** [d[key] = value]: an existing entry keeps its key object and its place,
    a new one goes to the end. *)
Fixpoint dict_setitem (d : dict) (key : Var) (value : Q) : result dict :=
  match d with
  | [] => Ok [(key, value)]
  | (k, c) :: d' =>
      b ← same_key k key;
      if b : bool then Ok ((k, value) :: d')
      else d'' ← dict_setitem d' key value; Ok ((k, c) :: d'')
  end.

(** [del d[key]] *)
Fixpoint dict_delitem (d : dict) (key : Var) : result dict :=
  match d with
  | [] => Raise KeyError
  | (k, c) :: d' =>
      b ← same_key k key;
      if b : bool then Ok d'
      else d'' ← dict_delitem d' key; Ok ((k, c) :: d'')
  end.

(** [-EPS <= x <= EPS] *)
Definition within_EPS (x : Q) : bool := Qle_bool (- EPS) x && Qle_bool x EPS.

(** [LinExpr.add_var] *)
Definition add_var (self : LinExpr) (var : Var) (coeff : Q) : result LinExpr :=
  present ← dict_contains (expr self) var;
  if present : bool then
    old ← dict_getitem (expr self) var;
    if within_EPS (old + coeff) then
      d ← dict_delitem (expr self) var; Ok (set_expr self d)
    else
      cur ← dict_getitem (expr self) var;
      d ← dict_setitem (expr self) var (cur + coeff); Ok (set_expr self d)
  else
    d ← dict_setitem (expr self) var coeff; Ok (set_expr self d).

(** The loop of [LinExpr.__init__] over [range(len(coeffs))]. *)
Fixpoint init_loop (self : LinExpr) (variables : list Var) (coeffs : list Q)
  : result LinExpr :=
  match variables, coeffs with
  | v :: vs, c :: cs =>
      if Qeq_bool c 0 then init_loop self vs cs
      else self' ← add_var self v c; init_loop self' vs cs
  | _, _ => Ok self
  end.

(** [LinExpr.__init__(variables, coeffs, const, sense)]; an omitted list is
    the empty list. *)
Definition LinExpr_init (variables : list Var) (coeffs : list Q)
    (const0 : Q) (sense0 : string) : result LinExpr :=
  let self := {| const := const0; expr := []; sense := sense0 |} in
  match variables with
  | [] => Ok self
  | _ :: _ =>
      if (length variables =? length coeffs)%nat
      then init_loop self variables coeffs
      else Raise AssertionError
  end.

(** [LinExpr.copy] *)
Definition copy (self : LinExpr) : LinExpr :=
  {| const := const self; expr := expr self; sense := sense self |}.

(** [LinExpr.add_const] *)
Definition add_const (self : LinExpr) (c : Q) : LinExpr :=
  set_const self (const self + c).

(** The loop of [add_expr] over [expr.expr.items()]. *)
Fixpoint add_expr_loop (self : LinExpr) (items : dict) (coeff : Q)
  : result LinExpr :=
  match items with
  | [] => Ok self
  | (var, coeff_var) :: rest =>
      self' ← add_var self var (coeff_var * coeff);
      add_expr_loop self' rest coeff
  end.

(** [LinExpr.add_expr(expr, coeff)], for [expr] an object other than
    [self]. *)
Definition add_expr (self : LinExpr) (e : LinExpr) (coeff : Q) : result LinExpr :=
  add_expr_loop (set_const self (const self + const e * coeff)) (expr e) coeff.

(** [LinExpr.__add__] *)
Definition LinExpr___add__ (self : LinExpr) (other : operand) : result LinExpr :=
  let result := copy self in
  match other with
  | OVar v => add_var result v 1
  | OExpr e => add_expr result e 1
  | ONum k => Ok (add_const result k)
  | OOther => Ok result
  end.

(** [LinExpr.__sub__] *)
Definition LinExpr___sub__ (self : LinExpr) (other : operand) : result LinExpr :=
  let result := copy self in
  match other with
  | OVar v => add_var result v (-1)
  | OExpr e => add_expr result e (-1)
  | ONum k => Ok (add_const result (- k))
  | OOther => Ok result
  end.

(** The loop [for var in result.expr.keys(): result.expr[var] *= other]. *)
Fixpoint mul_loop (d : dict) (keys : list Var) (other : Q) : result dict :=
  match keys with
  | [] => Ok d
  | var :: rest =>
      c ← dict_getitem d var;
      d' ← dict_setitem d var (c * other);
      mul_loop d' rest other
  end.

(** [other <= -1e-8] *)
Definition flips (other : Q) : bool := Qle_bool other (- (1 # 100000000)).

(** [LinExpr.__mul__]: the pair is the returned expression and the state in
    which the call leaves [self]. *)
Definition LinExpr___mul__ (self : LinExpr) (other : operand)
  : result (LinExpr * LinExpr) :=
  match other with
  | ONum k =>
      let result := copy self in
      let result := set_const result (const result * k) in
      d ← mul_loop (expr result) (map fst (expr result)) k;
      let result := set_expr result d in
      let self1 :=
        if String.eqb (sense self) GREATER_OR_EQUAL && flips k
        then set_sense self LESS_OR_EQUAL else self in
      let self2 :=
        if String.eqb (sense self1) LESS_OR_EQUAL && flips k
        then set_sense self1 GREATER_OR_EQUAL else self1 in
      Ok (result, self2)
  | _ => Raise AssertionError
  end.

(** The loop of [equals] over [self.expr.items()]. *)
Fixpoint equals_loop (self : LinExpr) (items : dict) : result bool :=
  match items with
  | [] => Ok true
  | (v, c) :: rest =>
      present ← dict_contains (expr self) v;
      if negb present then Ok false
      else
        oc ← dict_getitem (expr self) v;
        if negb (Qle_bool (Qabs (c - oc)) (1 # 1000000000000)) then Ok false
        else equals_loop self rest
  end.

(** [LinExpr.equals] *)
Definition equals (self other : LinExpr) : result bool :=
  if negb (Qeq_bool (const self) (const other)) then Ok false
  else if negb (String.eqb (sense self) (sense other)) then Ok false
  else if negb (length (expr self) =? length (expr other))%nat then Ok false
  else equals_loop self (expr self).

(** [LinExpr.__radd__] *)
Definition LinExpr___radd__ (self : LinExpr) (other : operand) : result LinExpr :=
  LinExpr___add__ self other.

(** [LinExpr.__iadd__], for [other] an object other than [self]: the state
    of [self] after the call, which is also the value returned. *)
Definition LinExpr___iadd__ (self : LinExpr) (other : operand) : result LinExpr :=
  match other with
  | OVar v => add_var self v 1
  | OExpr e => add_expr self e 1
  | ONum k => Ok (add_const self k)
  | OOther => Ok self
  end.

(** [LinExpr.__isub__], for [other] an object other than [self]. *)
Definition LinExpr___isub__ (self : LinExpr) (other : operand) : result LinExpr :=
  match other with
  | OVar v => add_var self v (-1)
  | OExpr e => add_expr self e (-1)
  | ONum k => Ok (add_const self (- k))
  | OOther => Ok self
  end.

(** [LinExpr.__rmul__] *)
Definition LinExpr___rmul__ (self : LinExpr) (other : operand)
  : result (LinExpr * LinExpr) :=
  LinExpr___mul__ self other.

(** [LinExpr.__imul__]: the state of [self] after the call. *)
Definition LinExpr___imul__ (self : LinExpr) (other : operand) : result LinExpr :=
  match other with
  | ONum k =>
      let self := set_const self (const self * k) in
      d ← mul_loop (expr self) (map fst (expr self)) k;
      Ok (set_expr self d)
  | _ => Raise AssertionError
  end.

(** [LinExpr.__neg__]: as for [__mul__], the returned expression and the
    state in which the call leaves [self]. *)
Definition LinExpr___neg__ (self : LinExpr) : result (LinExpr * LinExpr) :=
  LinExpr___mul__ self (ONum (-1)).

(** [LinExpr.__rsub__]: [(-self).__add__(other)]. *)
Definition LinExpr___rsub__ (self : LinExpr) (other : operand)
  : result (LinExpr * LinExpr) :=
  negated ← LinExpr___neg__ self;
  r ← LinExpr___add__ (fst negated) other;
  Ok (r, snd negated).

(** [LinExpr.__eq__], [LinExpr.__le__] and [LinExpr.__ge__]: the difference,
    tagged. *)
Definition LinExpr___eq__ (self : LinExpr) (other : operand) : result LinExpr :=
  r ← LinExpr___sub__ self other; Ok (set_sense r "=").

Definition LinExpr___le__ (self : LinExpr) (other : operand) : result LinExpr :=
  r ← LinExpr___sub__ self other; Ok (set_sense r "<").

Definition LinExpr___ge__ (self : LinExpr) (other : operand) : result LinExpr :=
  r ← LinExpr___sub__ self other; Ok (set_sense r ">").

(** [LinExpr.add_term(expr, coeff)] *)
Definition add_term (self : LinExpr) (term : operand) (coeff : Q) : result LinExpr :=
  match term with
  | OVar v => add_var self v coeff
  | OExpr e => add_expr self e coeff
  | ONum k => Ok (add_const self k)
  | OOther => Ok self
  end.

(** The loop of [xsum]. *)
Fixpoint xsum_loop (result0 : LinExpr) (terms : list operand) : result LinExpr :=
  match terms with
  | [] => Ok result0
  | term :: rest =>
      result1 ← add_term result0 term 1;
      xsum_loop result1 rest
  end.

(** [xsum(terms)] (and its alias [quicksum]) *)
Definition xsum (terms : list operand) : result LinExpr :=
  result0 ← LinExpr_init [] [] 0 "";
  xsum_loop result0 terms.

End Algebra.

(** ** [Var.__eq__] and the comparison of dict keys

    [Var.__eq__(self, other)] for [other] a handle returns
    [LinExpr([self, other], [1, -1], sense="=")].  Building that expression
    looks [other] up in a dict that holds [self], which compares the two
    handles again.  [depth] is the number of nested calls of [Var.__eq__]
    the interpreter still allows before it raises [RecursionError]. *)

Fixpoint Var___eq__ (depth : nat) (self other : Var) : result LinExpr :=
  match depth with
  | O => Raise RecursionError
  | S d =>
      LinExpr_init
        (fun a b => e ← Var___eq__ d a b; Ok true)
        [self; other] [1%Q; (-1)%Q] 0%Q EQUAL
  end.

(** The truth value of [stored == key] as a dict lookup takes it: a
    [LinExpr] object defines neither [__bool__] nor [__len__], so it is
    true. *)
Definition py_key_eq (depth : nat) (stored key : Var) : result bool :=
  e ← Var___eq__ depth stored key; Ok true.

(** ** The operators of class Var

    A method that falls through its [isinstance] tests returns [None]. *)

(** [Var.__add__] (and [Var.__radd__], which calls it) *)
Definition Var___add__ (depth : nat) (self : Var) (other : operand)
  : result (option LinExpr) :=
  match other with
  | OVar o =>
      e ← LinExpr_init (py_key_eq depth) [self; o] [1%Q; 1%Q] 0 ""; Ok (Some e)
  | OExpr e =>
      r ← LinExpr___add__ (py_key_eq depth) e (OVar self); Ok (Some r)
  | ONum k =>
      e ← LinExpr_init (py_key_eq depth) [self] [1%Q] k ""; Ok (Some e)
  | OOther => Ok None
  end.

(** [Var.__sub__]: with an expression it computes [(-other).__iadd__(self)],
    so the second component is the state in which the call leaves
    [other]. *)
Definition Var___sub__ (depth : nat) (self : Var) (other : operand)
  : result (option LinExpr * operand) :=
  match other with
  | OVar o =>
      e ← LinExpr_init (py_key_eq depth) [self; o] [1%Q; (-1)%Q] 0 "";
      Ok (Some e, other)
  | OExpr e =>
      negated ← LinExpr___neg__ (py_key_eq depth) e;
      r ← LinExpr___iadd__ (py_key_eq depth) (fst negated) (OVar self);
      Ok (Some r, OExpr (snd negated))
  | ONum k =>
      e ← LinExpr_init (py_key_eq depth) [self] [1%Q] (- k) "";
      Ok (Some e, other)
  | OOther => Ok (None, other)
  end.

(** [Var.__rsub__] *)
Definition Var___rsub__ (depth : nat) (self : Var) (other : operand)
  : result (option LinExpr) :=
  match other with
  | OVar o =>
      e ← LinExpr_init (py_key_eq depth) [self; o] [(-1)%Q; 1%Q] 0 ""; Ok (Some e)
  | OExpr e =>
      r ← LinExpr___sub__ (py_key_eq depth) e (OVar self); Ok (Some r)
  | ONum k =>
      e ← LinExpr_init (py_key_eq depth) [self] [(-1)%Q] k ""; Ok (Some e)
  | OOther => Ok None
  end.

(** [Var.__mul__] (and [Var.__rmul__], which calls it) *)
Definition Var___mul__ (depth : nat) (self : Var) (other : operand)
  : result LinExpr :=
  match other with
  | ONum k => LinExpr_init (py_key_eq depth) [self] [k] 0 ""
  | _ => Raise AssertionError
  end.

(** [Var.__neg__] *)
Definition Var___neg__ (depth : nat) (self : Var) : result LinExpr :=
  LinExpr_init (py_key_eq depth) [self] [(-1)%Q] 0 "".

(** The three branches that [Var.__eq__], [Var.__le__] and [Var.__ge__]
    share, for the tag [tag]; [flipped] is the comparison of expressions
    that the second branch calls with the operands exchanged.  For
    [__eq__] and two handles this is [Var___eq__]. *)
Definition Var_compare (depth : nat) (tag : string)
    (flipped : LinExpr -> operand -> result LinExpr)
    (self : Var) (other : operand) : result (option LinExpr) :=
  match other with
  | OVar o =>
      e ← LinExpr_init (py_key_eq depth) [self; o] [1%Q; (-1)%Q] 0 tag;
      Ok (Some e)
  | OExpr e => r ← flipped e (OVar self); Ok (Some r)
  | ONum k =>
      e ← (if negb (Qeq_bool k 0)
           then LinExpr_init (py_key_eq depth) [self] [1%Q] (-1 * k) tag
           else LinExpr_init (py_key_eq depth) [self] [1%Q] 0 tag);
      Ok (Some e)
  | OOther => Ok None
  end.

(** [Var.__eq__] on any operand; on a handle it is [Var___eq__], with an
    expression it returns [other == self]. *)
Definition Var___eq___operand (depth : nat) (self : Var) (other : operand)
  : result (option LinExpr) :=
  match other with
  | OVar o => e ← Var___eq__ depth self o; Ok (Some e)
  | _ => Var_compare depth "=" (LinExpr___eq__ (py_key_eq depth)) self other
  end.

(** [Var.__le__]: with an expression it returns [other >= self]. *)
Definition Var___le__ (depth : nat) (self : Var) (other : operand)
  : result (option LinExpr) :=
  Var_compare depth "<" (LinExpr___ge__ (py_key_eq depth)) self other.

(** [Var.__ge__]: with an expression it returns [other <= self]. *)
Definition Var___ge__ (depth : nat) (self : Var) (other : operand)
  : result (option LinExpr) :=
  Var_compare depth ">" (LinExpr___le__ (py_key_eq depth)) self other.

(** ** [LinExpr.__hash__] *)

(** The elements [__hash__] collects: indices, coefficients, the constant
    (numbers) and the sense (a string). *)
Inductive pyobj : Type :=
  | PyNum (q : Q)
  | PyStr (s : string).

(** The list [hashEl] that [__hash__] turns into a tuple. *)
Definition hashEl (self : LinExpr) : list pyobj :=
  (map (fun v => PyNum (inject_Z (Var_idx v))) (map fst (expr self))
   ++ map PyNum (map snd (expr self)))
  ++ [PyNum (const self)] ++ [PyStr (sense self)].

(** ** The interpreter's [hash]

    [__hash__] ends in [hash(tuple(hashEl))], a built-in.  The pool's
    properties below hold for any hash of tuples; to compute with hashes we
    follow CPython 3.8 and later on a 64-bit build: numbers hash by the
    language's rule for rationals modulo 2^61 - 1, a tuple mixes the hashes
    of its items in order ([tuplehash] of Objects/tupleobject.c), and the
    hash of a string is salted per process, so it stays a parameter (the
    empty string always hashes to 0). *)

Definition hash_modulus : Z := 2 ^ 61 - 1.
Definition hash_inf : Z := 314159.

(** [hash(q)] for a number of value [q]. *)
Definition hash_number (q : Q) : Z :=
  let r := Qred q in
  let m := Qnum r in
  let n := Z.pos (Qden r) in
  let h :=
    if (n mod hash_modulus =? 0)%Z then hash_inf
    else ((Z.abs m mod hash_modulus)
          * Zpow_mod n (hash_modulus - 2) hash_modulus mod hash_modulus)%Z in
  let h := if (m <? 0)%Z then (- h)%Z else h in
  if (h =? -1)%Z then (-2)%Z else h.

(** [Py_uhash_t] is 64 bits wide. *)
Definition uhash_range : Z := 2 ^ 64.

Definition XXPRIME_1 : Z := 11400714785074694791.
Definition XXPRIME_2 : Z := 14029467366897019727.
Definition XXPRIME_5 : Z := 2870177450012600261.

(** [_PyHASH_XXROTATE]: rotate left by 31 bits. *)
Definition XXROTATE (x : Z) : Z :=
  (Z.lor (Z.shiftl x 31) (Z.shiftr x 33) mod uhash_range)%Z.

(** One round of the loop of [tuplehash]. *)
Definition tuplehash_round (acc lane : Z) : Z :=
  let acc := ((acc + (lane mod uhash_range) * XXPRIME_2) mod uhash_range)%Z in
  let acc := XXROTATE acc in
  ((acc * XXPRIME_1) mod uhash_range)%Z.

(** The end of [tuplehash]: the length is mixed in, and the result is read
    as a signed 64-bit integer. *)
Definition tuplehash_finish (acc : Z) (len : nat) : Z :=
  let acc :=
    ((acc + Z.lxor (Z.of_nat len) (Z.lxor XXPRIME_5 3527539)) mod uhash_range)%Z in
  if (acc =? uhash_range - 1)%Z then 1546275796%Z
  else if (acc <? 2 ^ 63)%Z then acc else (acc - uhash_range)%Z.

(** [tuplehash] on the hashes of the items. *)
Definition tuplehash (lanes : list Z) : Z :=
  tuplehash_finish (fold_left tuplehash_round lanes XXPRIME_5) (length lanes).

(** [hash(o)] for an item of [hashEl]. *)
Definition hash_object (hash_str : string -> Z) (o : pyobj) : Z :=
  match o with
  | PyNum q => hash_number q
  | PyStr s => if String.eqb s "" then 0%Z else hash_str s
  end.

(** [hash(tuple(items))] *)
Definition py_hash_tuple (hash_str : string -> Z) (items : list pyobj) : Z :=
  tuplehash (map (hash_object hash_str) items).

(** ** class CutPool *)

Record CutPool : Type := mkCutPool {
  CutPool_cuts : list LinExpr;          (* self.__cuts *)
  CutPool_pos : gmap Z (list nat)       (* self.__pos, a defaultdict(list) *)
}.

(** [CutPool.__init__] *)
Definition CutPool_init : CutPool :=
  {| CutPool_cuts := []; CutPool_pos := ∅ |}.

(** [d[key]] on a [defaultdict(list)]: a missing key is inserted with an
    empty list. *)
Definition defaultdict_getitem (d : gmap Z (list nat)) (key : Z)
  : list nat * gmap Z (list nat) :=
  match d !! key with
  | Some l => (l, d)
  | None => ([], <[key := []]> d)
  end.

Section Pool.

Variable key_eq : Var -> Var -> result bool.

(** Python's built-in [hash] on the tuple of [hashEl]; its value is the
    interpreter's and is not fixed by the source. *)
Variable hash_tuple : list pyobj -> Z.

(** [LinExpr.__hash__] *)
Definition LinExpr___hash__ (self : LinExpr) : Z := hash_tuple (hashEl self).

(** The loop [for p in l: if self.__cuts[p].equals(cut): return False];
    [true] is the early return. *)
Fixpoint add_scan (cuts : list LinExpr) (l : list nat) (cut : LinExpr)
  : result bool :=
  match l with
  | [] => Ok false
  | p :: l' =>
      match cuts !! p with
      | None => Raise IndexError
      | Some stored =>
          same ← equals key_eq stored cut;
          if same : bool then Ok true else add_scan cuts l' cut
      end
  end.

(** [CutPool.add]: the returned boolean and the pool after the call. *)
Definition CutPool_add (self : CutPool) (cut : LinExpr) : result (bool * CutPool) :=
  let hcode := LinExpr___hash__ cut in
  let '(l, pos1) := defaultdict_getitem (CutPool_pos self) hcode in
  repeated ← add_scan (CutPool_cuts self) l cut;
  if repeated : bool then
    Ok (false, {| CutPool_cuts := CutPool_cuts self; CutPool_pos := pos1 |})
  else
    let '(bucket, pos2) := defaultdict_getitem pos1 hcode in
    Ok (true,
        {| CutPool_cuts := CutPool_cuts self ++ [cut];
           CutPool_pos :=
             <[hcode := bucket ++ [length (CutPool_cuts self)]]> pos2 |}).

End Pool.

(** ** The backend contract (class Solver) and class Constr *)

(** A bound of a variable: a number or [INF = float("inf")] with a sign. *)
Inductive bound : Type :=
  | Finite (q : Q)
  | PosInf
  | NegInf.

Record Constr : Type := mkConstr {
  Constr_model : nat;    (* self.model: the address of the owning model *)
  Constr_idx : Z;        (* self.idx *)
  Constr_name : string   (* self.name *)
}.

Record Column : Type := mkColumn {
  Column_constrs : list Constr;
  Column_coeffs : list Q
}.

(** The methods of [Solver] that [Model], [Var] and [Constr] call in the
    embedded code.  [Solver] is abstract in the source (every body is
    [pass]); an engine is a state type with these operations. *)
Class Solver (S : Type) : Type := {
  (* the engine class that Model.__init__ picks for solver_name, built
     with (name, sense) *)
  solver_new : string -> string -> string -> S;
  (* the solver_name Model.__init__ records for that engine *)
  solver_chosen : string -> string;
  solver_add_var : S -> Q -> bound -> bound -> string -> option Column -> string -> Z * S;
  solver_add_constr : S -> LinExpr -> string -> Z * S;
  solver_num_cols : S -> Z;
  solver_get_objective_sense : S -> string;
  solver_set_objective_sense : S -> string -> S;
  solver_get_objective_const : S -> Q;
  solver_set_objective_const : S -> Q -> S;
  solver_constr_get_expr : S -> Constr -> LinExpr;
  solver_var_get_lb : S -> Var -> bound;
  solver_var_get_ub : S -> Var -> bound;
  solver_var_get_obj : S -> Var -> Q;
  solver_var_get_type : S -> Var -> string;
  solver_var_get_rc : S -> Var -> Q;
  solver_var_get_x : S -> Var -> Q;
  solver_var_get_xi : S -> Var -> Z -> Q
}.

(** Modelled from the spec: the variable kinds of [mip.constants]
    (Continuous, Integer, Binary); [add_var] documents them as "C", "I"
    and "B". *)
Definition BINARY : string := "B".
Definition CONTINUOUS : string := "C".
Definition INTEGER : string := "I".

(** ** class Model *)

Record Model (S : Type) : Type := mkModel {
  Model_addr : nat;                        (* identity of the model object *)
  Model_name : string;                     (* self.name *)
  Model_solver_name : string;              (* self.solver_name *)
  Model_solver : S;                        (* self.solver *)
  Model_mipStart : list (Var * Q);         (* self.__mipStart *)
  Model_constrs : list Constr;             (* self.constrs *)
  Model_constrs_by_name : gmap string Constr;
  Model_vars : list Var;                   (* self.vars *)
  Model_vars_by_name : gmap string Var;
  Model_cuts_generator : option nat;       (* self.__cuts_generator *)
  Model_threads : Z;                       (* self.__threads *)
  Model_status : OptimizationStatus;       (* self.__status *)
  Model_cuts : Z                           (* self.__cuts *)
}.
Arguments mkModel {S}.
Arguments Model_addr {S}.
Arguments Model_name {S}.
Arguments Model_solver_name {S}.
Arguments Model_solver {S}.
Arguments Model_mipStart {S}.
Arguments Model_constrs {S}.
Arguments Model_constrs_by_name {S}.
Arguments Model_vars {S}.
Arguments Model_vars_by_name {S}.
Arguments Model_cuts_generator {S}.
Arguments Model_threads {S}.
Arguments Model_status {S}.
Arguments Model_cuts {S}.

(** The white space that [str.strip] removes ([str.isspace] of the code
    point): among the code points below 256 these are 9 to 13, 28 to 32,
    133 (U+0085) and 160 (U+00A0). *)
Definition is_space (a : ascii) : bool :=
  let n := nat_of_ascii a in
  ((9 <=? n) && (n <=? 13) || (28 <=? n) && (n <=? 32)
   || (n =? 133) || (n =? 160))%nat.

(** [len(name.strip()) == 0] *)
Fixpoint blank (s : string) : bool :=
  match s with
  | EmptyString => true
  | String a s' => is_space a && blank s'
  end.

Fixpoint zeros (n : nat) : string :=
  match n with O => "" | S n' => "0" +:+ zeros n' end.

(** ["{:011d}".format(n)]: the sign, then zeros up to width 11. *)
Definition format_011d (n : Z) : string :=
  if (n <? 0)%Z then
    let digits := pretty (- n)%Z in
    "-" +:+ zeros (10 - String.length digits) +:+ digits
  else
    let digits := pretty n in
    zeros (11 - String.length digits) +:+ digits.

Section Orchestrator.

Context {S : Type} `{Solver S}.

Definition set_solver (m : Model S) (s : S) : Model S :=
  mkModel (Model_addr m) (Model_name m) (Model_solver_name m) s
    (Model_mipStart m) (Model_constrs m) (Model_constrs_by_name m)
    (Model_vars m) (Model_vars_by_name m) (Model_cuts_generator m)
    (Model_threads m) (Model_status m) (Model_cuts m).

(** [Model.__init__]; [addr] is the address of the new object.  The choice
    of the engine from [solver_name] and the environment is left to
    [solver_new] and [solver_chosen]. *)
Definition Model_init (addr : nat) (name sense solver_name : string) : Model S :=
  let solver := solver_new solver_name name sense in
  {| Model_addr := addr;
     Model_name := name;
     Model_solver_name := solver_chosen solver_name;
     Model_solver := solver_set_objective_sense solver sense;
     Model_mipStart := [];
     Model_constrs := [];
     Model_constrs_by_name := ∅;
     Model_vars := [];
     Model_vars_by_name := ∅;
     Model_cuts_generator := None;
     Model_threads := 0;
     Model_status := LOADED;
     Model_cuts := 1 |}.

(** The property [Model.sense] *)
Definition Model_sense (self : Model S) : string :=
  solver_get_objective_sense (Model_solver self).

(** The property [Model.objective_const] and its setter *)
Definition Model_objective_const (self : Model S) : Q :=
  solver_get_objective_const (Model_solver self).
Definition Model_set_objective_const (self : Model S) (c : Q) : Model S :=
  set_solver self (solver_set_objective_const (Model_solver self) c).

(** The properties [Model.num_cols] and [Model.num_rows] *)
Definition Model_num_cols (self : Model S) : nat := length (Model_vars self).
Definition Model_num_rows (self : Model S) : nat := length (Model_constrs self).

(** The property [Model.cuts] and its setter; the setter's list is what it
    prints. *)
Definition Model_get_cuts (self : Model S) : Z := Model_cuts self.

Definition Model_set_cuts (self : Model S) (cuts : Z) : list string * Model S :=
  let printed :=
    if ((cuts <? 0) || (3 <? cuts))%Z
    then ["Warning: invalid value (" +:+ pretty (Model_cuts self)
          +:+ ") for parameter cuts, keeping old setting."]
    else [] in
  (printed,
   mkModel (Model_addr self) (Model_name self) (Model_solver_name self)
     (Model_solver self) (Model_mipStart self) (Model_constrs self)
     (Model_constrs_by_name self) (Model_vars self) (Model_vars_by_name self)
     (Model_cuts_generator self) (Model_threads self) (Model_status self)
     cuts).

(** [Model.add_var]; [addr] is the address of the new handle. *)
Definition Model_add_var (self : Model S) (addr : nat) (name : string)
    (lb ub : bound) (obj : Q) (var_type : string) (column : option Column)
  : Var * Model S :=
  let '(lb, ub) :=
    if String.eqb var_type BINARY then (Finite 0, Finite 1) else (lb, ub) in
  let name :=
    if blank name
    then "C" +:+ format_011d (solver_num_cols (Model_solver self))
    else name in
  let '(idx, solver) :=
    solver_add_var (Model_solver self) obj lb ub var_type column name in
  let v := mkVar (Model_addr self) idx name addr in
  (v,
   mkModel (Model_addr self) (Model_name self) (Model_solver_name self)
     solver (Model_mipStart self) (Model_constrs self)
     (Model_constrs_by_name self) (Model_vars self ++ [v])
     (<[name := v]> (Model_vars_by_name self)) (Model_cuts_generator self)
     (Model_threads self) (Model_status self) (Model_cuts self)).

(** What a caller passes as [lin_expr] to [add_constr]: a Python boolean
    (a comparison without variables) or an expression. *)
Inductive constr_arg : Type :=
  | ArgBool (b : bool)
  | ArgExpr (e : LinExpr).

(** [Model.add_constr]: the returned handle ([None] for no handle) and the
    model after the call. *)
Definition Model_add_constr (self : Model S) (lin_expr : constr_arg)
    (name : string) : option Constr * Model S :=
  match lin_expr with
  | ArgBool _ => (None, self)
  | ArgExpr e =>
      let '(idx, solver) := solver_add_constr (Model_solver self) e name in
      let c := mkConstr (Model_addr self) idx name in
      (Some c,
       mkModel (Model_addr self) (Model_name self) (Model_solver_name self)
         solver (Model_mipStart self) (Model_constrs self ++ [c])
         (<[name := c]> (Model_constrs_by_name self)) (Model_vars self)
         (Model_vars_by_name self) (Model_cuts_generator self)
         (Model_threads self) (Model_status self) (Model_cuts self))
  end.

(** *** Solution queries of class Var; [m] is the model [self.model]. *)

(** The property [Var.rc] *)
Definition Var_rc (m : Model S) (self : Var) : result Q :=
  if negb (bool_decide (Model_status m = OPTIMAL))
  then Raise (SolutionNotAvailable "Solution not available.")
  else Ok (solver_var_get_rc (Model_solver m) self).

(** The guard that [Var.x] and [Var.xi] share. *)
Definition solution_guard (m : Model S) : result unit :=
  if bool_decide (Model_status m = LOADED) then
    Raise (SolutionNotAvailable "Model was not optimized, solution not available.")
  else if bool_decide (Model_status m = INFEASIBLE)
          || bool_decide (Model_status m = CUTOFF) then
    Raise (SolutionNotAvailable "Infeasible model, solution not available.")
  else if bool_decide (Model_status m = UNBOUNDED) then
    Raise (SolutionNotAvailable "Unbounded model, solution not available.")
  else if bool_decide (Model_status m = NO_SOLUTION_FOUND) then
    Raise (SolutionNotAvailable "Solution not found during optimization.")
  else Ok ().

(** The property [Var.x] *)
Definition Var_x (m : Model S) (self : Var) : result Q :=
  _ ← solution_guard m; Ok (solver_var_get_x (Model_solver m) self).

(** [Var.xi] *)
Definition Var_xi (m : Model S) (self : Var) (i : Z) : result Q :=
  _ ← solution_guard m; Ok (solver_var_get_xi (Model_solver m) self i).

(** *** Attribute access and [Model.copy] *)

(** A value read from an attribute: a string, a number, a bound, or an object
    the embedding does not look into (a bound method, a list, a model, a
    solver). *)
Inductive pyval : Type :=
  | PStr (s : string)
  | PNum (q : Q)
  | PBound (b : bound)
  | PObject.

(** The names class [Var] defines besides its fields and properties. *)
Definition Var_methods : list string :=
  ["__init__"; "__hash__"; "__add__"; "__radd__"; "__sub__"; "__rsub__";
   "__mul__"; "__rmul__"; "__truediv__"; "__neg__"; "__eq__"; "__le__";
   "__ge__"; "__str__"; "xi"].

(** [getattr(self, attr)] on a handle: the fields set by [__init__], the
    properties and the methods of class [Var]; any other name raises
    [AttributeError].  (Names inherited from [object] are not listed.) *)
Definition Var_getattr (m : Model S) (self : Var) (attr : string) : result pyval :=
  if String.eqb attr "model" then Ok PObject
  else if String.eqb attr "idx" then Ok (PNum (inject_Z (Var_idx self)))
  else if String.eqb attr "name" then Ok (PStr (Var_name self))
  else if String.eqb attr "lb" then Ok (PBound (solver_var_get_lb (Model_solver m) self))
  else if String.eqb attr "ub" then Ok (PBound (solver_var_get_ub (Model_solver m) self))
  else if String.eqb attr "obj" then Ok (PNum (solver_var_get_obj (Model_solver m) self))
  else if String.eqb attr "type" then Ok (PStr (solver_var_get_type (Model_solver m) self))
  else if String.eqb attr "column" then Ok PObject
  else if String.eqb attr "rc" then q ← Var_rc m self; Ok (PNum q)
  else if String.eqb attr "x" then q ← Var_x m self; Ok (PNum q)
  else if bool_decide (attr ∈ Var_methods) then Ok PObject
  else Raise (AttributeError attr).

(** The names class [Model] defines whose values the embedding does not look
    into: fields holding objects, properties that only forward to the
    solver, and methods. *)
Definition Model_opaque : list string :=
  ["solver"; "_Model__mipStart"; "constrs"; "constrs_by_name"; "vars";
   "vars_by_name"; "_Model__cuts_generator"; "_Model__status";
   "__init__"; "__del__"; "__iadd__"; "add_var"; "add_constr"; "copy";
   "get_constr_by_name"; "objective_bound"; "objective"; "verbose";
   "objective_value"; "num_solutions"; "objective_values";
   "get_var_by_name"; "relax"; "cuts_generator"; "emphasis"; "optimize";
   "read"; "start"; "write"; "num_int"; "num_nz"; "cutoff";
   "max_mip_gap_abs"; "max_mip_gap"; "max_seconds"; "max_nodes";
   "max_solutions"; "status"].

(** [getattr(self, attr)] on a model. *)
Definition Model_getattr (self : Model S) (attr : string) : result pyval :=
  if String.eqb attr "name" then Ok (PStr (Model_name self))
  else if String.eqb attr "solver_name" then Ok (PStr (Model_solver_name self))
  else if String.eqb attr "sense" then Ok (PStr (Model_sense self))
  else if String.eqb attr "objective_const" then Ok (PNum (Model_objective_const self))
  else if String.eqb attr "threads" then Ok (PNum (inject_Z (Model_threads self)))
  else if String.eqb attr "_Model__threads" then Ok (PNum (inject_Z (Model_threads self)))
  else if String.eqb attr "cuts" then Ok (PNum (inject_Z (Model_cuts self)))
  else if String.eqb attr "_Model__cuts" then Ok (PNum (inject_Z (Model_cuts self)))
  else if String.eqb attr "num_cols" then Ok (PNum (inject_Z (Z.of_nat (Model_num_cols self))))
  else if String.eqb attr "num_rows" then Ok (PNum (inject_Z (Z.of_nat (Model_num_rows self))))
  else if bool_decide (attr ∈ Model_opaque) then Ok PObject
  else Raise (AttributeError attr).

(** [f()]: a string, a number or a bound is not callable; the result of
    calling another object is not looked into. *)
Definition py_call (f : pyval) : result pyval :=
  match f with
  | PObject => Ok PObject
  | _ => Raise TypeError
  end.

(** The body of the loop [for v in self.vars] of [Model.copy]: the keyword
    arguments are evaluated left to right, then [copy.add_var] is called. *)
Definition copy_var (self copy : Model S) (addr : nat) (v : Var)
  : result (Model S) :=
  name ← Var_getattr self v "name";
  lb ← Var_getattr self v "lb";
  ub ← Var_getattr self v "ub";
  obj ← Var_getattr self v "obj";
  var_type ← Var_getattr self v "var_type";
  match name, lb, ub, obj, var_type with
  | PStr name, PBound lb, PBound ub, PNum obj, PStr var_type =>
      Ok (snd (Model_add_var copy addr name lb ub obj var_type None))
  | _, _, _, _, _ => Raise TypeError
  end.

Fixpoint copy_vars (self copy : Model S) (fresh : nat -> nat) (i : nat)
    (vs : list Var) : result (Model S) :=
  match vs with
  | [] => Ok copy
  | v :: vs' =>
      copy' ← copy_var self copy (fresh i) v;
      copy_vars self copy' fresh (Datatypes.S i) vs'
  end.

(** The loop [for c in self.constrs] of [Model.copy]. *)
Fixpoint copy_constrs (self copy : Model S) (cs : list Constr) : Model S :=
  match cs with
  | [] => copy
  | c :: cs' =>
      let e := solver_constr_get_expr (Model_solver self) c in
      copy_constrs self
        (snd (Model_add_constr copy (ArgExpr e) (Constr_name c))) cs'
  end.

(** [Model.copy(solver_name)]; [addr] is the address of the new model and
    [fresh i] the address of the i-th handle created for it. *)
Definition Model_copy (self : Model S) (solver_name : option string)
    (addr : nat) (fresh : nat -> nat) : result (Model S) :=
  let solver_name :=
    match solver_name with
    | Some n => if String.eqb n "" then Model_solver_name self else n
    | None => Model_solver_name self
    end in
  let copy := Model_init addr (Model_name self) (Model_sense self) solver_name in
  copy ← copy_vars self copy fresh 0 (Model_vars self);
  let copy := copy_constrs self copy (Model_constrs self) in
  f ← Model_getattr self "get_objective_const";
  c ← py_call f;
  match c with
  | PNum c => Ok (Model_set_objective_const copy c)
  | _ => Raise TypeError
  end.

End Orchestrator.

(** ** The rest of the backend contract, and the methods of [Model] that
    use it *)

(** The methods of [Solver] that [optimize], [read] and the objective
    setter call. *)
Class SolverSearch (S : Type) : Type := {
  solver_set_objective : S -> LinExpr -> S;
  solver_set_num_threads : S -> Z -> S;
  solver_set_processing_limits : S -> bound -> bound -> bound -> S;
  solver_optimize : S -> OptimizationStatus * S;
  solver_read : S -> string -> S;
  solver_num_rows : S -> Z;
  solver_var_get_name : S -> Z -> string;
  solver_constr_get_name : S -> Z -> string
}.

Section Search.

Context {S : Type} `{Solver S} `{SolverSearch S}.

(** [Model.get_var_by_name] and [Model.get_constr_by_name]: [dict.get] with
    the default [None]. *)
Definition Model_get_var_by_name (self : Model S) (name : string) : option Var :=
  Model_vars_by_name self !! name.

Definition Model_get_constr_by_name (self : Model S) (name : string) : option Constr :=
  Model_constrs_by_name self !! name.

(** The setter of the property [Model.objective]; an operand of another
    type is ignored. *)
Definition Model_set_objective (depth : nat) (self : Model S) (e : operand)
  : result (Model S) :=
  match e with
  | ONum k =>
      le ← LinExpr_init (py_key_eq depth) [] [] k "";
      Ok (set_solver self (solver_set_objective (Model_solver self) le))
  | OVar v =>
      le ← LinExpr_init (py_key_eq depth) [v] [1%Q] 0 "";
      Ok (set_solver self (solver_set_objective (Model_solver self) le))
  | OExpr le =>
      Ok (set_solver self (solver_set_objective (Model_solver self) le))
  | OOther => Ok self
  end.

(** What [Model.__iadd__] dispatches on: an expression; a tuple that starts
    with an expression and a string; the empty tuple; a tuple of one
    expression; or anything else (an object of another type, a tuple whose
    first item is no expression, a tuple of an expression and an item that
    is no string). *)
Inductive iadd_arg : Type :=
  | IExpr (e : LinExpr)
  | INamed (e : LinExpr) (name : string)
  | IEmptyTuple
  | ISingleton (e : LinExpr)
  | IOther.

(** [Model.__iadd__]: the state of the model after [m += other]. *)
Definition Model___iadd__ (depth : nat) (self : Model S) (other : iadd_arg)
  : result (Model S) :=
  match other with
  | IExpr e =>
      if (String.length (sense e) =? 0)%nat
      then Model_set_objective depth self (OExpr e)
      else Ok (snd (Model_add_constr self (ArgExpr e) ""))
  | INamed e name =>
      if (String.length (sense e) =? 0)%nat
      then Model_set_objective depth self (OExpr e)
      else Ok (snd (Model_add_constr self (ArgExpr e) name))
  | IEmptyTuple => Raise IndexError        (* other[0] *)
  | ISingleton _ => Raise IndexError       (* other[1] *)
  | IOther => Ok self
  end.

(** [Model.optimize]: the returned status and the model after the call. *)
Definition Model_optimize (self : Model S) (max_seconds max_nodes max_solutions : bound)
  : OptimizationStatus * Model S :=
  let solver :=
    if negb (Model_threads self =? 0)%Z
    then solver_set_num_threads (Model_solver self) (Model_threads self)
    else Model_solver self in
  let solver := solver_set_processing_limits solver max_seconds max_nodes max_solutions in
  let '(status, solver) := solver_optimize solver in
  (status,
   mkModel (Model_addr self) (Model_name self) (Model_solver_name self)
     solver (Model_mipStart self) (Model_constrs self)
     (Model_constrs_by_name self) (Model_vars self) (Model_vars_by_name self)
     (Model_cuts_generator self) (Model_threads self) status (Model_cuts self)).

(** The first loop of [Model.read], over [range(n_cols)]: the handles are
    appended to [self.vars] and entered in [self.vars_by_name]; [fresh i] is
    the address of the handle made for column [i]. *)
Fixpoint read_vars (self : Model S) (fresh : nat -> nat) (columns : list nat)
  : Model S :=
  match columns with
  | [] => self
  | i :: rest =>
      let v := mkVar (Model_addr self) (Z.of_nat i)
                 (solver_var_get_name (Model_solver self) (Z.of_nat i)) (fresh i) in
      read_vars
        (mkModel (Model_addr self) (Model_name self) (Model_solver_name self)
           (Model_solver self) (Model_mipStart self) (Model_constrs self)
           (Model_constrs_by_name self) (Model_vars self ++ [v])
           (<[Var_name v := v]> (Model_vars_by_name self))
           (Model_cuts_generator self) (Model_threads self) (Model_status self)
           (Model_cuts self))
        fresh rest
  end.

(** The second loop of [Model.read], over [range(n_rows)]. *)
Fixpoint read_constrs (self : Model S) (rows : list nat) : Model S :=
  match rows with
  | [] => self
  | i :: rest =>
      let c := mkConstr (Model_addr self) (Z.of_nat i)
                 (solver_constr_get_name (Model_solver self) (Z.of_nat i)) in
      read_constrs
        (mkModel (Model_addr self) (Model_name self) (Model_solver_name self)
           (Model_solver self) (Model_mipStart self) (Model_constrs self ++ [c])
           (<[Constr_name c := c]> (Model_constrs_by_name self))
           (Model_vars self) (Model_vars_by_name self)
           (Model_cuts_generator self) (Model_threads self) (Model_status self)
           (Model_cuts self))
        rest
  end.

(** [Model.read(path)] *)
Definition Model_read (self : Model S) (path : string) (fresh : nat -> nat)
  : Model S :=
  let self := set_solver self (solver_read (Model_solver self) path) in
  let n_cols := solver_num_cols (Model_solver self) in
  let n_rows := solver_num_rows (Model_solver self) in
  let self := read_vars self fresh (seq 0 (Z.to_nat n_cols)) in
  let self := read_constrs self (seq 0 (Z.to_nat n_rows)) in
  set_solver self
    (solver_set_objective_sense (Model_solver self)
       (solver_get_objective_sense (Model_solver self))).

End Search.

(** * Properties *)

(** ** The dict invariant

    Inserting a key whose hash is already present either finds the stored
    key (by identity or by [==]) or raises, so the keys of a dict have
    pairwise different hashes. *)

Definition keys (d : dict) : list Var := map fst d.

Definition wf_dict (d : dict) : Prop := NoDup (map Var___hash__ (keys d)).

Definition wf_expr (e : LinExpr) : Prop := wf_dict (expr e).

Lemma bind_Ok {A B} (a : A) (f : A -> result B) : (Ok a ≫= f) = f a.
Proof. reflexivity. Qed.

Lemma bind_Raise {A B} (e : exn) (f : A -> result B) : (Raise e ≫= f) = Raise e.
Proof. reflexivity. Qed.

Lemma Var_is_refl (v : Var) : Var_is v v = true.
Proof. unfold Var_is. apply bool_decide_eq_true. reflexivity. Qed.

Lemma Var_is_ne (a b : Var) : a <> b -> Var_is a b = false.
Proof. intros Hne. unfold Var_is. apply bool_decide_eq_false. exact Hne. Qed.

Section DictFacts.

Variable key_eq : Var -> Var -> result bool.

Lemma same_key_refl (v : Var) : same_key key_eq v v = Ok true.
Proof. unfold same_key. rewrite Var_is_refl. reflexivity. Qed.

Lemma same_key_hash_ne (stored key : Var) :
  Var___hash__ stored <> Var___hash__ key ->
  same_key key_eq stored key = Ok false.
Proof.
  intros Hne. unfold same_key.
  rewrite Var_is_ne by (intros ->; apply Hne; reflexivity).
  destruct (Z.eqb_spec (Var___hash__ stored) (Var___hash__ key)) as [Heq|_].
  - contradiction.
  - reflexivity.
Qed.

(** A key whose hash no stored key has is absent, and is appended. *)
Lemma dict_contains_fresh (d : dict) (key : Var) :
  Var___hash__ key ∉ map Var___hash__ (keys d) ->
  dict_contains key_eq d key = Ok false.
Proof.
  induction d as [|[k c] d IH]; intros Hfresh; simpl.
  - reflexivity.
  - simpl in Hfresh. apply not_elem_of_cons in Hfresh as [Hne Hrest].
    rewrite same_key_hash_ne by congruence. simpl. apply IH, Hrest.
Qed.

Lemma dict_setitem_fresh (d : dict) (key : Var) (value : Q) :
  Var___hash__ key ∉ map Var___hash__ (keys d) ->
  dict_setitem key_eq d key value = Ok (d ++ [(key, value)]).
Proof.
  induction d as [|[k c] d IH]; intros Hfresh; simpl.
  - reflexivity.
  - simpl in Hfresh. apply not_elem_of_cons in Hfresh as [Hne Hrest].
    rewrite same_key_hash_ne by congruence. simpl.
    rewrite IH by exact Hrest. reflexivity.
Qed.

(** In a well-formed dict the entries before a stored key have other
    hashes, so a lookup of that very key object reaches its entry. *)
Lemma wf_dict_before (pre suf : dict) (v : Var) (c : Q) :
  wf_dict (pre ++ (v, c) :: suf) ->
  Var___hash__ v ∉ map Var___hash__ (keys pre).
Proof.
  unfold wf_dict, keys. rewrite !map_app. simpl. intros Hnd.
  apply NoDup_app in Hnd as (_ & Hdisj & _).
  intros Hin. apply (Hdisj _ Hin). left.
Qed.

Lemma dict_contains_stored (pre suf : dict) (v : Var) (c : Q) :
  Var___hash__ v ∉ map Var___hash__ (keys pre) ->
  dict_contains key_eq (pre ++ (v, c) :: suf) v = Ok true.
Proof.
  induction pre as [|[k c0] pre IH]; intros Hfresh; simpl.
  - rewrite same_key_refl. reflexivity.
  - simpl in Hfresh. apply not_elem_of_cons in Hfresh as [Hne Hrest].
    rewrite same_key_hash_ne by congruence. simpl. apply IH, Hrest.
Qed.

Lemma dict_getitem_stored (pre suf : dict) (v : Var) (c : Q) :
  Var___hash__ v ∉ map Var___hash__ (keys pre) ->
  dict_getitem key_eq (pre ++ (v, c) :: suf) v = Ok c.
Proof.
  induction pre as [|[k c0] pre IH]; intros Hfresh; simpl.
  - rewrite same_key_refl. reflexivity.
  - simpl in Hfresh. apply not_elem_of_cons in Hfresh as [Hne Hrest].
    rewrite same_key_hash_ne by congruence. simpl. apply IH, Hrest.
Qed.

Lemma dict_setitem_stored (pre suf : dict) (v : Var) (c value : Q) :
  Var___hash__ v ∉ map Var___hash__ (keys pre) ->
  dict_setitem key_eq (pre ++ (v, c) :: suf) v value
  = Ok (pre ++ (v, value) :: suf).
Proof.
  induction pre as [|[k c0] pre IH]; intros Hfresh; simpl.
  - rewrite same_key_refl. reflexivity.
  - simpl in Hfresh. apply not_elem_of_cons in Hfresh as [Hne Hrest].
    rewrite same_key_hash_ne by congruence. simpl.
    rewrite IH by exact Hrest. reflexivity.
Qed.

Lemma dict_delitem_stored (pre suf : dict) (v : Var) (c : Q) :
  Var___hash__ v ∉ map Var___hash__ (keys pre) ->
  dict_delitem key_eq (pre ++ (v, c) :: suf) v = Ok (pre ++ suf).
Proof.
  induction pre as [|[k c0] pre IH]; intros Hfresh; simpl.
  - rewrite same_key_refl. reflexivity.
  - simpl in Hfresh. apply not_elem_of_cons in Hfresh as [Hne Hrest].
    rewrite same_key_hash_ne by congruence. simpl.
    rewrite IH by exact Hrest. reflexivity.
Qed.

End DictFacts.

(** ** Comparing two different handles of equal hash never returns *)

Lemma Var___eq___same_hash (depth : nat) (a b : Var) :
  a <> b -> Var___hash__ a = Var___hash__ b ->
  Var___eq__ depth a b = Raise RecursionError.
Proof.
  intros Hne Hhash. induction depth as [|d IH].
  - reflexivity.
  - cbn [Var___eq__]. unfold LinExpr_init. cbn [length Nat.eqb init_loop].
    change (Qeq_bool 1 0) with false. change (Qeq_bool (-1) 0) with false.
    cbv iota.
    unfold add_var at 2. cbn [expr dict_contains dict_setitem].
    rewrite !bind_Ok. cbn [set_expr expr].
    unfold add_var. cbn [set_expr expr dict_contains].
    unfold same_key. rewrite (Var_is_ne a b Hne).
    rewrite Hhash, Z.eqb_refl, IH. reflexivity.
Qed.

Lemma py_key_eq_same_hash (depth : nat) (a b : Var) :
  a <> b -> Var___hash__ a = Var___hash__ b ->
  py_key_eq depth a b = Raise RecursionError.
Proof.
  intros Hne Hhash. unfold py_key_eq.
  rewrite Var___eq___same_hash by assumption. reflexivity.
Qed.

(** The comparison of dict keys never answers "different" for equal
    hashes: it finds the key or it raises. *)
Lemma py_key_eq_not_false (depth : nat) (a b : Var) :
  py_key_eq depth a b <> Ok false.
Proof.
  unfold py_key_eq. destruct (Var___eq__ depth a b); discriminate.
Qed.

Lemma dict_contains_clash (depth : nat) (d : dict) (var : Var) :
  var ∉ keys d ->
  Var___hash__ var ∈ map Var___hash__ (keys d) ->
  dict_contains (py_key_eq depth) d var = Raise RecursionError.
Proof.
  induction d as [|[k c] d IH]; simpl; intros Hnotin Hin.
  - inversion Hin.
  - apply not_elem_of_cons in Hnotin as [Hne Hnotin].
    destruct (decide (Var___hash__ k = Var___hash__ var)) as [Heq|Hneq].
    + unfold same_key. rewrite Var_is_ne by congruence.
      rewrite Heq, Z.eqb_refl.
      rewrite py_key_eq_same_hash by congruence. reflexivity.
    + rewrite same_key_hash_ne by exact Hneq. simpl. apply IH.
      * exact Hnotin.
      * apply elem_of_cons in Hin as [Heq|Hin]; [congruence | exact Hin].
Qed.

(** ** [add_var], case by case *)

Section AddVar.

Variable key_eq : Var -> Var -> result bool.

(** The handle is a key: its coefficient is updated, or the term removed. *)
Lemma add_var_stored (self : LinExpr) (pre suf : dict) (var : Var) (old coeff : Q) :
  wf_expr self ->
  expr self = pre ++ (var, old) :: suf ->
  add_var key_eq self var coeff
  = Ok (set_expr self
          (if within_EPS (old + coeff) then pre ++ suf
           else pre ++ (var, (old + coeff)%Q) :: suf)).
Proof.
  intros Hwf Hsplit. unfold wf_expr in Hwf. rewrite Hsplit in Hwf.
  pose proof (wf_dict_before _ _ _ _ Hwf) as Hbefore.
  unfold add_var. rewrite Hsplit.
  rewrite dict_contains_stored by exact Hbefore. rewrite bind_Ok.
  rewrite dict_getitem_stored by exact Hbefore. rewrite bind_Ok.
  destruct (within_EPS (old + coeff)).
  - rewrite dict_delitem_stored by exact Hbefore. reflexivity.
  - rewrite bind_Ok.
    rewrite dict_setitem_stored by exact Hbefore. reflexivity.
Qed.

(** No key has the handle's hash: the term is appended as given. *)
Lemma add_var_fresh (self : LinExpr) (var : Var) (coeff : Q) :
  Var___hash__ var ∉ map Var___hash__ (keys (expr self)) ->
  add_var key_eq self var coeff
  = Ok (set_expr self (expr self ++ [(var, coeff)])).
Proof.
  intros Hfresh. unfold add_var.
  rewrite dict_contains_fresh by exact Hfresh. rewrite bind_Ok.
  rewrite dict_setitem_fresh by exact Hfresh. reflexivity.
Qed.

End AddVar.

(** Another handle object with the hash of a key: the lookup raises. *)
Lemma add_var_clash (depth : nat) (self : LinExpr) (var : Var) (coeff : Q) :
  var ∉ keys (expr self) ->
  Var___hash__ var ∈ map Var___hash__ (keys (expr self)) ->
  add_var (py_key_eq depth) self var coeff = Raise RecursionError.
Proof.
  intros Hnotin Hin. unfold add_var.
  rewrite dict_contains_clash by assumption. reflexivity.
Qed.

Lemma wf_dict_remove (pre suf : dict) (v : Var) (c : Q) :
  wf_dict (pre ++ (v, c) :: suf) -> wf_dict (pre ++ suf).
Proof.
  unfold wf_dict, keys. rewrite !map_app. simpl. intros Hnd.
  apply NoDup_app in Hnd as (Hpre & Hdisj & Hsuf).
  apply NoDup_cons in Hsuf as [_ Hsuf].
  apply NoDup_app. split; [exact Hpre|]. split; [|exact Hsuf].
  intros x Hx Hx'. apply (Hdisj x Hx). right. exact Hx'.
Qed.

Lemma wf_dict_update (pre suf : dict) (v : Var) (c c' : Q) :
  wf_dict (pre ++ (v, c) :: suf) -> wf_dict (pre ++ (v, c') :: suf).
Proof. unfold wf_dict, keys. rewrite !map_app. simpl. intros Hnd. exact Hnd. Qed.

Lemma wf_dict_append (d : dict) (v : Var) (c : Q) :
  wf_dict d -> Var___hash__ v ∉ map Var___hash__ (keys d) ->
  wf_dict (d ++ [(v, c)]).
Proof.
  unfold wf_dict, keys. rewrite !map_app. simpl. intros Hnd Hfresh.
  apply NoDup_app. split; [exact Hnd|]. split.
  - intros x Hx Hx'. apply list_elem_of_singleton in Hx'. subst x. contradiction.
  - apply NoDup_singleton.
Qed.

Lemma keys_split (d : dict) (v : Var) :
  v ∈ keys d -> exists pre c suf, d = pre ++ (v, c) :: suf.
Proof.
  unfold keys. intros Hin. apply list_elem_of_fmap in Hin as ([k c] & -> & Hin).
  apply list_elem_of_split in Hin as (pre & suf & ->).
  exists pre, c, suf. reflexivity.
Qed.

(** [add_var] keeps the dict invariant. *)
Lemma add_var_wf (depth : nat) (self self' : LinExpr) (var : Var) (coeff : Q) :
  wf_expr self ->
  add_var (py_key_eq depth) self var coeff = Ok self' ->
  wf_expr self'.
Proof.
  intros Hwf Hrun.
  destruct (decide (var ∈ keys (expr self))) as [Hin|Hnotin].
  - destruct (keys_split _ _ Hin) as (pre & old & suf & Hsplit).
    rewrite (add_var_stored _ self pre suf var old coeff Hwf Hsplit) in Hrun.
    injection Hrun as <-. unfold wf_expr in *. cbn [set_expr expr].
    rewrite Hsplit in Hwf. destruct (within_EPS (old + coeff)).
    + eapply wf_dict_remove, Hwf.
    + eapply wf_dict_update, Hwf.
  - destruct (decide (Var___hash__ var ∈ map Var___hash__ (keys (expr self))))
      as [Hclash|Hfresh].
    + rewrite add_var_clash in Hrun by assumption. discriminate.
    + rewrite add_var_fresh in Hrun by exact Hfresh.
      injection Hrun as <-. unfold wf_expr in *. cbn [set_expr expr].
      apply wf_dict_append; assumption.
Qed.

(** ** The invariant is kept by the algebra *)

Lemma init_loop_wf (depth : nat) (variables : list Var) (coeffs : list Q) :
  forall self self' : LinExpr,
    wf_expr self ->
    init_loop (py_key_eq depth) self variables coeffs = Ok self' ->
    wf_expr self'.
Proof.
  revert coeffs. induction variables as [|v vs IH]; intros [|c cs] self self' Hwf Hrun;
    cbn [init_loop] in Hrun; try (injection Hrun as <-; exact Hwf).
  destruct (Qeq_bool c 0).
  - eapply IH; eassumption.
  - destruct (add_var (py_key_eq depth) self v c) as [self1|e] eqn:Hadd;
      [|discriminate].
    rewrite bind_Ok in Hrun.
    eapply IH; [|exact Hrun]. eapply add_var_wf; eassumption.
Qed.

Lemma LinExpr_init_wf (depth : nat) (variables : list Var) (coeffs : list Q)
    (const0 : Q) (sense0 : string) (e : LinExpr) :
  LinExpr_init (py_key_eq depth) variables coeffs const0 sense0 = Ok e ->
  wf_expr e.
Proof.
  unfold LinExpr_init. intros Hrun.
  assert (Hempty : wf_expr {| const := const0; expr := []; sense := sense0 |})
    by apply NoDup_nil_2.
  destruct variables as [|v vs].
  - injection Hrun as <-. exact Hempty.
  - destruct (length (v :: vs) =? length coeffs)%nat; [|discriminate].
    eapply init_loop_wf; eassumption.
Qed.

Lemma add_expr_loop_wf (depth : nat) (items : dict) (coeff : Q) :
  forall self self' : LinExpr,
    wf_expr self ->
    add_expr_loop (py_key_eq depth) self items coeff = Ok self' ->
    wf_expr self'.
Proof.
  induction items as [|[v c] items IH]; intros self self' Hwf Hrun;
    cbn [add_expr_loop] in Hrun.
  - injection Hrun as <-. exact Hwf.
  - destruct (add_var (py_key_eq depth) self v (c * coeff)) as [self1|e] eqn:Hadd;
      [|discriminate].
    rewrite bind_Ok in Hrun.
    eapply IH; [|exact Hrun]. eapply add_var_wf; eassumption.
Qed.

Lemma add_expr_wf (depth : nat) (self e self' : LinExpr) (coeff : Q) :
  wf_expr self ->
  add_expr (py_key_eq depth) self e coeff = Ok self' ->
  wf_expr self'.
Proof.
  unfold add_expr. intros Hwf Hrun.
  eapply add_expr_loop_wf; [|exact Hrun]. exact Hwf.
Qed.

Lemma LinExpr___add___wf (depth : nat) (self self' : LinExpr) (other : operand) :
  wf_expr self ->
  LinExpr___add__ (py_key_eq depth) self other = Ok self' ->
  wf_expr self'.
Proof.
  intros Hwf Hrun. destruct other as [v|e|k|]; cbn [LinExpr___add__] in Hrun.
  - eapply add_var_wf; [|exact Hrun]. exact Hwf.
  - eapply add_expr_wf; [|exact Hrun]. exact Hwf.
  - injection Hrun as <-. exact Hwf.
  - injection Hrun as <-. exact Hwf.
Qed.

Lemma LinExpr___sub___wf (depth : nat) (self self' : LinExpr) (other : operand) :
  wf_expr self ->
  LinExpr___sub__ (py_key_eq depth) self other = Ok self' ->
  wf_expr self'.
Proof.
  intros Hwf Hrun. destruct other as [v|e|k|]; cbn [LinExpr___sub__] in Hrun.
  - eapply add_var_wf; [|exact Hrun]. exact Hwf.
  - eapply add_expr_wf; [|exact Hrun]. exact Hwf.
  - injection Hrun as <-. exact Hwf.
  - injection Hrun as <-. exact Hwf.
Qed.

(** ** [__mul__] and [equals] on a well-formed expression *)

(** Every coefficient multiplied by [k], keys and order kept. *)
Definition scale (k : Q) (d : dict) : dict :=
  map (fun item => (fst item, (snd item * k)%Q)) d.

Section MulEquals.

Variable key_eq : Var -> Var -> result bool.

Lemma mul_loop_scale (k : Q) (suf : dict) :
  forall pre : dict,
    wf_dict (pre ++ suf) ->
    mul_loop key_eq (pre ++ suf) (keys suf) k = Ok (pre ++ scale k suf).
Proof.
  induction suf as [|[v c] suf IH]; intros pre Hwf; cbn [keys map mul_loop fst].
  - reflexivity.
  - pose proof (wf_dict_before _ _ _ _ Hwf) as Hbefore.
    rewrite dict_getitem_stored by exact Hbefore. rewrite bind_Ok.
    rewrite dict_setitem_stored by exact Hbefore. rewrite bind_Ok.
    replace (pre ++ (v, (c * k)%Q) :: suf) with ((pre ++ [(v, (c * k)%Q)]) ++ suf)
      by (rewrite <- app_assoc; reflexivity).
    fold (keys suf). rewrite IH.
    + rewrite <- app_assoc. reflexivity.
    + rewrite <- app_assoc. eapply wf_dict_update, Hwf.
Qed.

(** What [__mul__] leaves in [self.sense]. *)
Definition sense_after_mul (s : string) (k : Q) : string :=
  if String.eqb s LESS_OR_EQUAL && flips k then GREATER_OR_EQUAL else s.

Lemma LinExpr___mul___wf (self : LinExpr) (k : Q) :
  wf_expr self ->
  LinExpr___mul__ key_eq self (ONum k)
  = Ok ({| const := const self * k; expr := scale k (expr self);
           sense := sense self |},
        set_sense self (sense_after_mul (sense self) k)).
Proof.
  intros Hwf. unfold LinExpr___mul__. cbn [copy set_const expr const sense].
  pose proof (mul_loop_scale k (expr self) [] Hwf) as Hloop.
  cbn [app] in Hloop. unfold keys in Hloop. rewrite Hloop, bind_Ok.
  cbn [set_expr const sense]. f_equal. f_equal.
  unfold sense_after_mul. destruct self as [c d s]. cbn [sense set_sense const expr].
  destruct (flips k); rewrite ?andb_false_r, ?andb_true_r.
  - destruct (String.eqb_spec s GREATER_OR_EQUAL) as [->|Hgt].
    + reflexivity.
    + cbn [sense]. destruct (String.eqb s LESS_OR_EQUAL); reflexivity.
  - reflexivity.
Qed.

Lemma abs_self_difference (c : Q) :
  Qle_bool (Qabs (c - c)) (1 # 1000000000000) = true.
Proof.
  apply Qle_bool_iff.
  assert (Hzero : (c - c == 0)%Q) by ring.
  rewrite Hzero. discriminate.
Qed.

Lemma equals_loop_wf (self : LinExpr) (items : dict) :
  forall pre : dict,
    wf_expr self -> expr self = pre ++ items ->
    equals_loop key_eq self items = Ok true.
Proof.
  induction items as [|[v c] items IH]; intros pre Hwf Hsplit; cbn [equals_loop].
  - reflexivity.
  - assert (Hbefore : Var___hash__ v ∉ map Var___hash__ (keys pre)).
    { unfold wf_expr in Hwf. rewrite Hsplit in Hwf.
      eapply wf_dict_before, Hwf. }
    rewrite Hsplit.
    rewrite dict_contains_stored by exact Hbefore. rewrite bind_Ok. cbn [negb].
    rewrite dict_getitem_stored by exact Hbefore. rewrite bind_Ok.
    rewrite abs_self_difference. cbn [negb].
    apply (IH (pre ++ [(v, c)])); [exact Hwf|].
    rewrite Hsplit, <- app_assoc. reflexivity.
Qed.

(** [equals] compares the constants, the senses and the numbers of terms,
    and nothing of the other expression's terms. *)
Lemma equals_wf (self other : LinExpr) :
  wf_expr self ->
  equals key_eq self other
  = Ok (Qeq_bool (const self) (const other)
        && String.eqb (sense self) (sense other)
        && (length (expr self) =? length (expr other))%nat).
Proof.
  intros Hwf. unfold equals.
  destruct (Qeq_bool (const self) (const other)); cbn [negb andb]; [|reflexivity].
  destruct (String.eqb (sense self) (sense other)); cbn [negb andb]; [|reflexivity].
  destruct (length (expr self) =? length (expr other))%nat; cbn [negb]; [|reflexivity].
  apply (equals_loop_wf self (expr self) []); [exact Hwf | reflexivity].
Qed.

End MulEquals.

(** ** The cut pool *)

(** The positions in the buckets are positions of stored cuts, and the stored
    cuts are well-formed expressions. *)
Definition pool_wf (pool : CutPool) : Prop :=
  (forall (h : Z) (l : list nat) (p : nat),
      CutPool_pos pool !! h = Some l -> p ∈ l ->
      (p < length (CutPool_cuts pool))%nat)
  /\ (forall stored : LinExpr, stored ∈ CutPool_cuts pool -> wf_expr stored).

(** The bucket of a hash; a missing bucket is empty. *)
Definition bucket (pool : CutPool) (h : Z) : list nat :=
  default [] (CutPool_pos pool !! h).

Lemma CutPool_init_wf : pool_wf CutPool_init.
Proof.
  split.
  - intros h l p Hlook. cbn [CutPool_init CutPool_pos] in Hlook.
    rewrite lookup_empty in Hlook. discriminate.
  - intros stored Hin. cbn [CutPool_init CutPool_cuts] in Hin. inversion Hin.
Qed.

Section PoolFacts.

Variable key_eq : Var -> Var -> result bool.
Variable hash_tuple : list pyobj -> Z.

(** Some cut stored at a position of [l] equals [cut]. *)
Definition repeated_in (cuts : list LinExpr) (l : list nat) (cut : LinExpr) : Prop :=
  exists (p : nat) (stored : LinExpr),
    p ∈ l /\ cuts !! p = Some stored /\ equals key_eq stored cut = Ok true.

(** On valid positions the scan answers, and answers whether some stored
    cut of the bucket equals [cut]. *)
Lemma add_scan_decides (cuts : list LinExpr) (l : list nat) (cut : LinExpr) :
  (forall p, p ∈ l -> exists stored, cuts !! p = Some stored /\ wf_expr stored) ->
  (repeated_in cuts l cut /\ add_scan key_eq cuts l cut = Ok true)
  \/ (~ repeated_in cuts l cut /\ add_scan key_eq cuts l cut = Ok false).
Proof.
  induction l as [|p l IH]; intros Hvalid.
  - right. split; [|reflexivity].
    intros (q & stored & Hq & _). inversion Hq.
  - cbn [add_scan].
    destruct (Hvalid p) as (sp & Hsp & Hwf); [left|]. rewrite Hsp.
    pose proof (equals_wf key_eq sp cut Hwf) as Heq.
    destruct (Qeq_bool (const sp) (const cut) && String.eqb (sense sp) (sense cut)
              && (length (expr sp) =? length (expr cut))%nat);
      rewrite Heq, bind_Ok.
    + left. split; [|reflexivity]. exists p, sp. split; [left|]. auto.
    + destruct IH as [[Hrep Hscan]|[Hnew Hscan]].
      * intros p' Hp'. apply Hvalid. right. exact Hp'.
      * left. split; [|exact Hscan].
        destruct Hrep as (q & stored & Hq & Hlook & Hsame).
        exists q, stored. split; [right; exact Hq|]. auto.
      * right. split; [|exact Hscan].
        intros (q & stored & Hq & Hlook & Hsame).
        apply elem_of_cons in Hq as [->|Hq].
        -- rewrite Hsp in Hlook. injection Hlook as <-.
           rewrite Heq in Hsame. discriminate.
        -- apply Hnew. exists q, stored. auto.
Qed.

Lemma pool_wf_bucket (pool : CutPool) (h : Z) :
  pool_wf pool ->
  forall p, p ∈ bucket pool h ->
    exists stored, CutPool_cuts pool !! p = Some stored /\ wf_expr stored.
Proof.
  intros [Hpos Hcuts] p Hp. unfold bucket in Hp.
  destruct (CutPool_pos pool !! h) as [l|] eqn:Hlook; simpl in Hp.
  - pose proof (Hpos h l p Hlook Hp) as Hlt.
    destruct (lookup_lt_is_Some_2 (CutPool_cuts pool) p Hlt) as [stored Hstored].
    exists stored. split; [exact Hstored|].
    apply Hcuts. eapply list_elem_of_lookup_2, Hstored.
  - inversion Hp.
Qed.

(** [add] in terms of the scan of the bucket. *)
Lemma CutPool_add_unfold (pool : CutPool) (cut : LinExpr) :
  CutPool_add key_eq hash_tuple pool cut
  = (repeated ← add_scan key_eq (CutPool_cuts pool)
                  (bucket pool (LinExpr___hash__ hash_tuple cut)) cut;
     if repeated : bool then
       Ok (false,
           {| CutPool_cuts := CutPool_cuts pool;
              CutPool_pos :=
                snd (defaultdict_getitem (CutPool_pos pool)
                       (LinExpr___hash__ hash_tuple cut)) |})
     else
       Ok (true,
           {| CutPool_cuts := CutPool_cuts pool ++ [cut];
              CutPool_pos :=
                <[LinExpr___hash__ hash_tuple cut :=
                    bucket pool (LinExpr___hash__ hash_tuple cut)
                    ++ [length (CutPool_cuts pool)]]> (CutPool_pos pool) |})).
Proof.
  unfold CutPool_add, defaultdict_getitem, bucket.
  destruct (CutPool_pos pool !! LinExpr___hash__ hash_tuple cut) as [l|] eqn:Hlook;
    simpl.
  - destruct (add_scan key_eq (CutPool_cuts pool) l cut) as [[|]|e];
      simpl; [reflexivity| |reflexivity].
    rewrite Hlook. reflexivity.
  - rewrite lookup_insert_eq, insert_insert_eq. reflexivity.
Qed.

(** A repeated cut is refused and the pool stays as it was. *)
Lemma CutPool_add_repeated (pool : CutPool) (cut : LinExpr) :
  pool_wf pool ->
  repeated_in (CutPool_cuts pool) (bucket pool (LinExpr___hash__ hash_tuple cut)) cut ->
  CutPool_add key_eq hash_tuple pool cut = Ok (false, pool).
Proof.
  intros Hwf Hrep. rewrite CutPool_add_unfold.
  destruct (add_scan_decides _ _ cut
              (pool_wf_bucket pool (LinExpr___hash__ hash_tuple cut) Hwf))
    as [[_ Hscan]|[Hnew _]]; [|contradiction].
  rewrite Hscan, bind_Ok. unfold defaultdict_getitem.
  destruct Hrep as (p & stored & Hp & _). unfold bucket in Hp.
  destruct (CutPool_pos pool !! LinExpr___hash__ hash_tuple cut) as [l|];
    simpl in Hp.
  - destruct pool. reflexivity.
  - inversion Hp.
Qed.

(** A new cut is appended, and its position joins the bucket of its hash. *)
Lemma CutPool_add_new (pool : CutPool) (cut : LinExpr) :
  pool_wf pool ->
  ~ repeated_in (CutPool_cuts pool) (bucket pool (LinExpr___hash__ hash_tuple cut)) cut ->
  CutPool_add key_eq hash_tuple pool cut
  = Ok (true,
        {| CutPool_cuts := CutPool_cuts pool ++ [cut];
           CutPool_pos :=
             <[LinExpr___hash__ hash_tuple cut :=
                 bucket pool (LinExpr___hash__ hash_tuple cut)
                 ++ [length (CutPool_cuts pool)]]> (CutPool_pos pool) |}).
Proof.
  intros Hwf Hnew. rewrite CutPool_add_unfold.
  destruct (add_scan_decides _ _ cut
              (pool_wf_bucket pool (LinExpr___hash__ hash_tuple cut) Hwf))
    as [[Hrep _]|[_ Hscan]]; [contradiction|].
  rewrite Hscan. reflexivity.
Qed.

(** [add] keeps the pool well-formed when the cut is. *)
Lemma CutPool_add_wf (pool pool' : CutPool) (cut : LinExpr) (b : bool) :
  pool_wf pool -> wf_expr cut ->
  CutPool_add key_eq hash_tuple pool cut = Ok (b, pool') ->
  pool_wf pool'.
Proof.
  intros Hwf Hcut Hrun.
  destruct (add_scan_decides _ _ cut
              (pool_wf_bucket pool (LinExpr___hash__ hash_tuple cut) Hwf))
    as [[Hrep _]|[Hnew _]].
  - rewrite (CutPool_add_repeated pool cut Hwf Hrep) in Hrun.
    injection Hrun as _ <-. exact Hwf.
  - rewrite (CutPool_add_new pool cut Hwf Hnew) in Hrun.
    injection Hrun as _ <-. destruct Hwf as [Hpos Hcuts].
    split; cbn [CutPool_cuts CutPool_pos].
    + intros h l p Hlook Hp. rewrite length_app. cbn [length].
      destruct (decide (LinExpr___hash__ hash_tuple cut = h)) as [<-|Hne].
      * rewrite lookup_insert_eq in Hlook. injection Hlook as <-.
        apply elem_of_app in Hp as [Hp|Hp].
        -- destruct (pool_wf_bucket pool _ (conj Hpos Hcuts) p Hp)
             as (stored & Hstored & _).
           apply lookup_lt_Some in Hstored. lia.
        -- apply list_elem_of_singleton in Hp. lia.
      * rewrite lookup_insert_ne in Hlook by exact Hne.
        pose proof (Hpos h l p Hlook Hp). lia.
    + intros stored Hin. apply elem_of_app in Hin as [Hin|Hin].
      * apply Hcuts, Hin.
      * apply list_elem_of_singleton in Hin. subst stored. exact Hcut.
Qed.

End PoolFacts.

(** * Concrete objects

    Handles, expressions and a small engine on which the embedded code is
    run in the examples below. *)

(** [sys.getrecursionlimit()] by default. *)
Definition recursion_limit : nat := 1000.

(** Two handles of one model, with indices 0 and 1. *)
Definition x_var : Var := mkVar 1 0 "x" 10.
Definition y_var : Var := mkVar 1 1 "y" 11.

(** A handle of another model, also with index 0. *)
Definition x_other : Var := mkVar 2 0 "x" 20.

(** An engine that keeps its columns and rows in lists and reports 0 for
    every solution value. *)
Record ListSolver : Type := mkListSolver {
  ls_sense : string;
  ls_const : Q;
  ls_cols : list (string * (bound * bound) * (Q * string));
  ls_rows : list (string * LinExpr)
}.

Definition ls_col (s : ListSolver) (v : Var)
  : string * (bound * bound) * (Q * string) :=
  nth (Z.to_nat (Var_idx v)) (ls_cols s) ("", (Finite 0, PosInf), (0%Q, CONTINUOUS)).

#[global] Instance ListSolver_Solver : Solver ListSolver := {|
  solver_new := fun _ _ sense => mkListSolver sense 0 [] [];
  solver_chosen := fun solver_name => solver_name;
  solver_add_var := fun s obj lb ub var_type _ name =>
    (Z.of_nat (length (ls_cols s)),
     mkListSolver (ls_sense s) (ls_const s)
       (ls_cols s ++ [(name, (lb, ub), (obj, var_type))]) (ls_rows s));
  solver_add_constr := fun s e name =>
    (Z.of_nat (length (ls_rows s)),
     mkListSolver (ls_sense s) (ls_const s) (ls_cols s) (ls_rows s ++ [(name, e)]));
  solver_num_cols := fun s => Z.of_nat (length (ls_cols s));
  solver_get_objective_sense := ls_sense;
  solver_set_objective_sense := fun s sense =>
    mkListSolver sense (ls_const s) (ls_cols s) (ls_rows s);
  solver_get_objective_const := ls_const;
  solver_set_objective_const := fun s c =>
    mkListSolver (ls_sense s) c (ls_cols s) (ls_rows s);
  solver_constr_get_expr := fun s c =>
    snd (nth (Z.to_nat (Constr_idx c)) (ls_rows s)
           ("", {| const := 0; expr := []; sense := "" |}));
  solver_var_get_lb := fun s v => fst (snd (fst (ls_col s v)));
  solver_var_get_ub := fun s v => snd (snd (fst (ls_col s v)));
  solver_var_get_obj := fun s v => fst (snd (ls_col s v));
  solver_var_get_type := fun s v => snd (snd (ls_col s v));
  solver_var_get_rc := fun _ _ => 0%Q;
  solver_var_get_x := fun _ _ => 0%Q;
  solver_var_get_xi := fun _ _ _ => 0%Q
|}.

(** [Model("m", "MIN", "CBC")], a model as constructed. *)
Definition fresh_model : Model ListSolver := Model_init 1 "m" "MIN" "CBC".

(** The same model after [x = m.add_var("x")]. *)
Definition model_x : Model ListSolver :=
  snd (Model_add_var fresh_model 10 "x" (Finite 0) PosInf 0 CONTINUOUS None).

(** A model whose status has become [s]. *)
Definition with_status {S : Type} (m : Model S) (s : OptimizationStatus) : Model S :=
  mkModel (Model_addr m) (Model_name m) (Model_solver_name m) (Model_solver m)
    (Model_mipStart m) (Model_constrs m) (Model_constrs_by_name m)
    (Model_vars m) (Model_vars_by_name m) (Model_cuts_generator m)
    (Model_threads m) s (Model_cuts m).

(** The cuts [x <= 0] and [2*x <= 0]. *)
Definition x_le_0 : LinExpr :=
  {| const := 0; expr := [(x_var, 1%Q)]; sense := LESS_OR_EQUAL |}.
Definition two_x_le_0 : LinExpr :=
  {| const := 0; expr := [(x_var, 2%Q)]; sense := LESS_OR_EQUAL |}.

(** They are [LinExpr([x], [1], sense="<")], which [Var.__le__] builds for
    [x <= 0], and [LinExpr([x], [2], sense="<")]. *)
Example x_le_0_built (depth : nat) :
  LinExpr_init (py_key_eq depth) [x_var] [1%Q] 0 "<" = Ok x_le_0
  /\ LinExpr_init (py_key_eq depth) [x_var] [2%Q] 0 "<" = Ok two_x_le_0.
Proof. split; reflexivity. Qed.

Lemma x_le_0_wf : wf_expr x_le_0.
Proof.
  unfold wf_expr, wf_dict. cbn [x_le_0 expr keys map fst].
  apply NoDup_singleton.
Qed.

(** * The properties of the specification, one by one *)

(** C1 (the code departs from the claim): multiplying [x <= 0] by -1
    returns an expression with the coefficient scaled but still tagged
    [<=], and leaves the operand itself tagged [>=]; the sense that
    [__mul__] rewrites is [self.sense], not [result.sense]. *)
Theorem mul_negative_flips_operand_not_result (depth : nat) :
  LinExpr___mul__ (py_key_eq depth) x_le_0 (ONum (-1))
  = Ok ({| const := 0 * -1; expr := [(x_var, (1 * -1)%Q)];
           sense := LESS_OR_EQUAL |},
        {| const := 0; expr := [(x_var, 1%Q)]; sense := GREATER_OR_EQUAL |}).
Proof.
  rewrite (LinExpr___mul___wf _ x_le_0 (-1) x_le_0_wf).
  reflexivity.
Qed.

(** The same on [x >= 0]: the first test sets [self.sense] to [<=], the
    second sets it back, and the result is still tagged [>=]. *)
Example mul_negative_of_ge (depth : nat) :
  LinExpr___mul__ (py_key_eq depth) (set_sense x_le_0 GREATER_OR_EQUAL) (ONum (-1))
  = Ok ({| const := 0 * -1; expr := [(x_var, (1 * -1)%Q)];
           sense := GREATER_OR_EQUAL |},
        set_sense x_le_0 GREATER_OR_EQUAL).
Proof. reflexivity. Qed.

(** C2 (the code departs from the claim): on a model as constructed
    (cuts = 1), setting cuts to 5 prints the warning that the old setting
    is kept and then stores 5. *)
Theorem set_cuts_out_of_range_overwrites :
  Model_set_cuts fresh_model 5
  = (["Warning: invalid value (1) for parameter cuts, keeping old setting."],
     mkModel 1 "m" "CBC" (Model_solver fresh_model) [] [] ∅ [] ∅ None 0 LOADED 5)
  /\ Model_get_cuts fresh_model = 1%Z
  /\ Model_get_cuts (snd (Model_set_cuts fresh_model 5)) = 5%Z.
Proof.
  split; [|split].
  - vm_compute. reflexivity.
  - reflexivity.
  - reflexivity.
Qed.

(** The setter stores whatever it is given. *)
Lemma Model_set_cuts_stores {S : Type} (m : Model S) (cuts : Z) :
  Model_get_cuts (snd (Model_set_cuts m cuts)) = cuts.
Proof. reflexivity. Qed.

(** What a query of the primal values ([x] and [xi]) and of the reduced
    cost ([rc]) gives: the engine's answer, or the error with a message. *)
Definition answers_primal {S : Type} `{Solver S} (m : Model S) (v : Var) (i : Z) : Prop :=
  Var_x m v = Ok (solver_var_get_x (Model_solver m) v)
  /\ Var_xi m v i = Ok (solver_var_get_xi (Model_solver m) v i).

Definition refuses_primal {S : Type} `{Solver S} (m : Model S) (v : Var) (i : Z)
    (msg : string) : Prop :=
  Var_x m v = Raise (SolutionNotAvailable msg)
  /\ Var_xi m v i = Raise (SolutionNotAvailable msg).

Definition answers_rc {S : Type} `{Solver S} (m : Model S) (v : Var) : Prop :=
  Var_rc m v = Ok (solver_var_get_rc (Model_solver m) v).

Definition refuses_rc {S : Type} `{Solver S} (m : Model S) (v : Var) : Prop :=
  Var_rc m v = Raise (SolutionNotAvailable "Solution not available.").

(** C3 (counterexample): with status [ERROR], and with status
    [INT_INFEASIBLE], the query of a solution value is not refused but
    returns what the engine reports; and with status [CUTOFF] the message is
    the one of [INFEASIBLE], so it does not tell the two states apart. *)
Lemma primal_query_answered_at_ERROR :
  Var_x (with_status model_x ERROR) x_var = Ok 0%Q
  /\ Var_xi (with_status model_x INT_INFEASIBLE) x_var 0 = Ok 0%Q
  /\ Var_x (with_status model_x CUTOFF) x_var
     = Var_x (with_status model_x INFEASIBLE) x_var
  /\ Var_x (with_status model_x CUTOFF) x_var
     = Raise (SolutionNotAvailable "Infeasible model, solution not available.").
Proof. repeat split; vm_compute; reflexivity. Qed.

(** C3 (amended): [x] and [xi] are refused, with the message of the state,
    in the five states [LOADED], [INFEASIBLE], [CUTOFF], [UNBOUNDED] and
    [NO_SOLUTION_FOUND], where [INFEASIBLE] and [CUTOFF] share one message;
    in the states [OPTIMAL] and [FEASIBLE] they return the engine's answer;
    [rc] is refused in every state but [OPTIMAL].  (Nothing is stated about
    [x] and [xi] in the states [ERROR] and [INT_INFEASIBLE].) *)
Theorem solution_queries_by_status {S : Type} `{Solver S}
    (m : Model S) (v : Var) (i : Z) :
  match Model_status m with
  | LOADED =>
      refuses_primal m v i "Model was not optimized, solution not available."
      /\ refuses_rc m v
  | INFEASIBLE | CUTOFF =>
      refuses_primal m v i "Infeasible model, solution not available."
      /\ refuses_rc m v
  | UNBOUNDED =>
      refuses_primal m v i "Unbounded model, solution not available."
      /\ refuses_rc m v
  | NO_SOLUTION_FOUND =>
      refuses_primal m v i "Solution not found during optimization."
      /\ refuses_rc m v
  | FEASIBLE => answers_primal m v i /\ refuses_rc m v
  | OPTIMAL => answers_primal m v i /\ answers_rc m v
  | ERROR | INT_INFEASIBLE => refuses_rc m v
  end.
Proof.
  unfold answers_primal, refuses_primal, answers_rc, refuses_rc,
    Var_x, Var_xi, Var_rc, solution_guard.
  destruct (Model_status m); cbn; repeat split; reflexivity.
Qed.

(** C4 (the code departs from the claim): [1*x <= 0] and [2*x <= 0] have
    the same constant, sense and number of terms, their coefficients of the
    shared variable differ by 1, and [equals] returns true; its loop reads
    both coefficients from [self.expr]. *)
Theorem equals_ignores_other_coefficients (depth : nat) :
  dict_getitem (py_key_eq depth) (expr x_le_0) x_var = Ok 1%Q
  /\ dict_getitem (py_key_eq depth) (expr two_x_le_0) x_var = Ok 2%Q
  /\ Qle_bool (Qabs (1 - 2)) (1 # 1000000000000) = false
  /\ equals (py_key_eq depth) x_le_0 two_x_le_0 = Ok true.
Proof.
  split; [reflexivity|]. split; [reflexivity|]. split; [reflexivity|].
  rewrite (equals_wf _ x_le_0 two_x_le_0 x_le_0_wf). reflexivity.
Qed.

(** C6 (the code departs from the claim): [copy] never returns a model.
    With at least one variable, the first round of the loop over
    [self.vars] reads [v.var_type], which class [Var] does not define (the
    property is [type]); with none, the constraints are re-added and then
    [self.get_objective_const] is read, which class [Model] does not define
    (the property is [objective_const]). *)
Theorem Model_copy_raises_AttributeError {S : Type} `{Solver S}
    (self : Model S) (solver_name : option string) (addr : nat)
    (fresh : nat -> nat) :
  Model_copy self solver_name addr fresh
  = Raise (AttributeError
             match Model_vars self with
             | [] => "get_objective_const"
             | _ :: _ => "var_type"
             end).
Proof.
  unfold Model_copy. destruct (Model_vars self) as [|v vs].
  - cbn [copy_vars]. rewrite bind_Ok. reflexivity.
  - cbn [copy_vars]. unfold copy_var.
    change (Var_getattr self v "var_type") with
      (@Raise pyval (AttributeError "var_type")).
    reflexivity.
Qed.

(** [copy] on the model with one variable. *)
Example copy_model_x :
  Model_copy model_x None 2 (fun i => (30 + i)%nat) = Raise (AttributeError "var_type").
Proof. vm_compute. reflexivity. Qed.

(** [equals] of a well-formed expression with itself. *)
Lemma equals_self (key_eq : Var -> Var -> result bool) (e : LinExpr) :
  wf_expr e -> equals key_eq e e = Ok true.
Proof.
  intros Hwf. rewrite (equals_wf key_eq e e Hwf).
  rewrite Qeq_bool_refl, String.eqb_refl, Nat.eqb_refl. reflexivity.
Qed.

(** What [add] does on a well-formed pool, in terms of the method [equals]
    of the code: it refuses a cut that [equals] matches with a stored cut of
    the bucket of its hash, and leaves the pool as it was; otherwise it
    appends the cut and records its position in that bucket.  Submitted
    twice to a new pool, a cut is accepted, then refused. *)
Lemma CutPool_add_by_equals (depth : nat) (hash_tuple : list pyobj -> Z)
    (pool : CutPool) (cut : LinExpr) :
  pool_wf pool -> wf_expr cut ->
  (repeated_in (py_key_eq depth) (CutPool_cuts pool)
     (bucket pool (LinExpr___hash__ hash_tuple cut)) cut ->
   CutPool_add (py_key_eq depth) hash_tuple pool cut = Ok (false, pool))
  /\ (~ repeated_in (py_key_eq depth) (CutPool_cuts pool)
        (bucket pool (LinExpr___hash__ hash_tuple cut)) cut ->
      CutPool_add (py_key_eq depth) hash_tuple pool cut
      = Ok (true,
            {| CutPool_cuts := CutPool_cuts pool ++ [cut];
               CutPool_pos :=
                 <[LinExpr___hash__ hash_tuple cut :=
                     bucket pool (LinExpr___hash__ hash_tuple cut)
                     ++ [length (CutPool_cuts pool)]]> (CutPool_pos pool) |}))
  /\ (exists pool1 : CutPool,
        CutPool_add (py_key_eq depth) hash_tuple CutPool_init cut = Ok (true, pool1)
        /\ length (CutPool_cuts pool1) = 1%nat
        /\ CutPool_add (py_key_eq depth) hash_tuple pool1 cut = Ok (false, pool1)).
Proof.
  intros Hpool Hcut. split; [|split].
  - apply CutPool_add_repeated, Hpool.
  - apply CutPool_add_new, Hpool.
  - assert (Hfirst : ~ repeated_in (py_key_eq depth) (CutPool_cuts CutPool_init)
                       (bucket CutPool_init (LinExpr___hash__ hash_tuple cut)) cut).
    { intros (p & stored & Hp & _). unfold bucket in Hp.
      cbn [CutPool_init CutPool_pos] in Hp. rewrite lookup_empty in Hp.
      inversion Hp. }
    pose proof (CutPool_add_new (py_key_eq depth) hash_tuple CutPool_init cut
                  CutPool_init_wf Hfirst) as Hadd.
    eexists. split; [exact Hadd|]. split; [reflexivity|].
    apply CutPool_add_repeated.
    + eapply CutPool_add_wf; [exact CutPool_init_wf | exact Hcut | exact Hadd].
    + exists 0%nat, cut. unfold bucket. cbn [CutPool_pos CutPool_cuts].
      rewrite lookup_insert_eq. cbn [CutPool_init CutPool_cuts].
      split; [|split].
      * simpl. rewrite lookup_empty. simpl. left.
      * reflexivity.
      * apply equals_self, Hcut.
Qed.

(** The equality contract in the words of the specification: equal
    constant, equal sense, equal term count, and every variable shared by
    both expressions has coefficients that differ by at most 1e-12. *)
Definition spec_equality_contract (a b : LinExpr) : Prop :=
  (const a == const b)%Q
  /\ sense a = sense b
  /\ length (expr a) = length (expr b)
  /\ (forall (v : Var) (ca cb : Q),
        (v, ca) ∈ expr a -> (v, cb) ∈ expr b ->
        (Qabs (ca - cb) <= 1 # 1000000000000)%Q).

(** C5 (the code departs from the claim): for a handle [v], a constant [k]
    and a sense, the cuts [-1*v (sense) -k] and [-2*v (sense) -k] have the
    same hash, because [hash(-1)] and [hash(-2)] are both -2, and neither
    satisfies the equality contract with the other: the coefficients of [v]
    differ by 1.  A new pool accepts the first and stores it in that bucket;
    it then refuses the second, returns false and stays as it was, although
    no stored cut of the bucket satisfies the contract with it: the scan
    uses [equals], which compares the constant, the sense and the number of
    terms only. *)
Theorem CutPool_add_refuses_different_cut (depth : nat) (hash_str : string -> Z)
    (v : Var) (k : Q) (sense0 : string) :
  let first := {| const := k; expr := [(v, (-1)%Q)]; sense := sense0 |} in
  let second := {| const := k; expr := [(v, (-2)%Q)]; sense := sense0 |} in
  LinExpr___hash__ (py_hash_tuple hash_str) first
  = LinExpr___hash__ (py_hash_tuple hash_str) second
  /\ ~ spec_equality_contract first second
  /\ ~ spec_equality_contract second first
  /\ exists pool1 : CutPool,
       CutPool_add (py_key_eq depth) (py_hash_tuple hash_str) CutPool_init first
       = Ok (true, pool1)
       /\ CutPool_cuts pool1 = [first]
       /\ bucket pool1 (LinExpr___hash__ (py_hash_tuple hash_str) second) = [0%nat]
       /\ CutPool_add (py_key_eq depth) (py_hash_tuple hash_str) pool1 second
          = Ok (false, pool1).
Proof.
  intros first second.
  assert (Hhash : LinExpr___hash__ (py_hash_tuple hash_str) first
                  = LinExpr___hash__ (py_hash_tuple hash_str) second).
  { unfold LinExpr___hash__, py_hash_tuple, hashEl, first, second.
    cbn [expr const sense map fst snd app hash_object].
    replace (hash_number (-2)) with (hash_number (-1)) by (vm_compute; reflexivity).
    reflexivity. }
  assert (Hfirst : wf_expr first) by apply NoDup_singleton.
  split; [exact Hhash|].
  split.
  { intros (_ & _ & _ & Hcoeff).
    specialize (Hcoeff v (-1)%Q (-2)%Q).
    assert (Hgap : (Qabs (-1 - -2) <= 1 # 1000000000000)%Q).
    { apply Hcoeff; apply list_elem_of_singleton; reflexivity. }
    apply Qle_bool_iff in Hgap. discriminate Hgap. }
  split.
  { intros (_ & _ & _ & Hcoeff).
    specialize (Hcoeff v (-2)%Q (-1)%Q).
    assert (Hgap : (Qabs (-2 - -1) <= 1 # 1000000000000)%Q).
    { apply Hcoeff; apply list_elem_of_singleton; reflexivity. }
    apply Qle_bool_iff in Hgap. discriminate Hgap. }
  destruct (CutPool_add_by_equals depth (py_hash_tuple hash_str) CutPool_init first
              CutPool_init_wf Hfirst) as (_ & Hnew & _).
  assert (Hfresh : ~ repeated_in (py_key_eq depth) (CutPool_cuts CutPool_init)
                     (bucket CutPool_init
                        (LinExpr___hash__ (py_hash_tuple hash_str) first)) first).
  { intros (p & stored & Hp & _). unfold bucket in Hp.
    cbn [CutPool_init CutPool_pos] in Hp. rewrite lookup_empty in Hp.
    inversion Hp. }
  specialize (Hnew Hfresh).
  eexists. split; [exact Hnew|].
  split; [reflexivity|].
  assert (Hbucket :
    bucket {| CutPool_cuts := CutPool_cuts CutPool_init ++ [first];
              CutPool_pos :=
                <[LinExpr___hash__ (py_hash_tuple hash_str) first :=
                    bucket CutPool_init
                      (LinExpr___hash__ (py_hash_tuple hash_str) first)
                    ++ [length (CutPool_cuts CutPool_init)]]>
                  (CutPool_pos CutPool_init) |}
      (LinExpr___hash__ (py_hash_tuple hash_str) second) = [0%nat]).
  { rewrite <- Hhash. unfold bucket at 1. cbn [CutPool_pos].
    rewrite lookup_insert_eq. unfold bucket.
    cbn [CutPool_init CutPool_pos CutPool_cuts]. rewrite lookup_empty.
    reflexivity. }
  split; [exact Hbucket|].
  apply CutPool_add_repeated.
  - eapply CutPool_add_wf; [exact CutPool_init_wf | exact Hfirst | exact Hnew].
  - exists 0%nat, first. rewrite Hbucket.
    split; [apply list_elem_of_singleton; reflexivity|].
    split; [reflexivity|].
    rewrite (equals_wf (py_key_eq depth) first second Hfirst).
    cbn [const sense expr first second length].
    rewrite Qeq_bool_refl, String.eqb_refl. reflexivity.
Qed.

(** [LinExpr()], the empty expression. *)
Definition empty_expr : LinExpr := {| const := 0; expr := []; sense := "" |}.

(** C8 (counterexample): [add_constr] with the empty expression on a model
    as constructed is not a no-op: it returns a handle, the registry holds
    one constraint and the engine one row. *)
Lemma add_constr_empty_expr_is_added :
  LinExpr_init (py_key_eq recursion_limit) [] [] 0 "" = Ok empty_expr
  /\ fst (Model_add_constr fresh_model (ArgExpr empty_expr) "")
     = Some (mkConstr 1 0 "")
  /\ Model_constrs (snd (Model_add_constr fresh_model (ArgExpr empty_expr) ""))
     = [mkConstr 1 0 ""]
  /\ ls_rows (Model_solver
                (snd (Model_add_constr fresh_model (ArgExpr empty_expr) "")))
     = [("", empty_expr)]
  /\ Model_constrs fresh_model = [].
Proof. repeat split; reflexivity. Qed.

(** C8 (amended): [add_constr] with a boolean returns no handle and leaves
    the model, its registry and its engine as they were; with an
    expression, whatever its terms and sense, it hands the expression to the
    engine, appends one handle with the engine's index to the list, enters
    it in the name map and returns it. *)
Theorem add_constr_bool_or_expr {S : Type} `{Solver S}
    (m : Model S) (name : string) :
  (forall b : bool, Model_add_constr m (ArgBool b) name = (None, m))
  /\ (forall e : LinExpr,
        exists c : Constr,
          c = mkConstr (Model_addr m)
                (fst (solver_add_constr (Model_solver m) e name)) name
          /\ fst (Model_add_constr m (ArgExpr e) name) = Some c
          /\ Model_constrs (snd (Model_add_constr m (ArgExpr e) name))
             = Model_constrs m ++ [c]
          /\ Model_constrs_by_name (snd (Model_add_constr m (ArgExpr e) name))
             = <[name := c]> (Model_constrs_by_name m)
          /\ Model_solver (snd (Model_add_constr m (ArgExpr e) name))
             = snd (solver_add_constr (Model_solver m) e name)).
Proof.
  split.
  - intros b. reflexivity.
  - intros e. eexists. split; [reflexivity|].
    unfold Model_add_constr.
    destruct (solver_add_constr (Model_solver m) e name) as [idx solver].
    cbn [fst snd Model_constrs Model_constrs_by_name Model_solver].
    repeat split; reflexivity.
Qed.

(** C9 (counterexample): [LinExpr([x], [1e-9])] stores the coefficient 1e-9,
    which lies within EPS of zero ([__init__] skips only coefficients equal
    to 0, and [add_var] stores the coefficient of a new term as given);
    [add_var(x, 0)] on the empty expression stores the coefficient 0. *)
Lemma init_stores_coefficient_within_EPS :
  LinExpr_init (py_key_eq recursion_limit) [x_var] [1 # 1000000000] 0 ""
  = Ok {| const := 0; expr := [(x_var, 1 # 1000000000)]; sense := "" |}
  /\ within_EPS (1 # 1000000000) = true
  /\ add_var (py_key_eq recursion_limit) empty_expr x_var 0
     = Ok {| const := 0; expr := [(x_var, 0%Q)]; sense := "" |}.
Proof. repeat split; reflexivity. Qed.

Lemma wf_dict_key_once (pre suf : dict) (v : Var) (c : Q) :
  wf_dict (pre ++ (v, c) :: suf) -> v ∉ keys (pre ++ suf).
Proof.
  unfold wf_dict, keys. rewrite !map_app. simpl. intros Hnd Hin.
  apply NoDup_app in Hnd as (_ & Hdisj & Hsuf).
  apply NoDup_cons in Hsuf as [Hnotin _].
  apply elem_of_app in Hin as [Hin|Hin].
  - apply (Hdisj (Var___hash__ v)).
    + apply list_elem_of_fmap. exists v. auto.
    + left.
  - apply Hnotin. apply list_elem_of_fmap. exists v. auto.
Qed.

(** C9 (amended): on an expression whose keys have pairwise different
    indices, [add_var(var, coeff)] on a handle that is a key with
    coefficient [old] removes the term when [old + coeff] lies within EPS of
    zero (the handle is then no key at all) and stores [old + coeff]
    otherwise; on a handle whose index no key has, it appends the term with
    exactly [coeff], whether or not [coeff] lies within EPS of zero. *)
Theorem add_var_updates_or_inserts (depth : nat) (self : LinExpr)
    (var : Var) (coeff : Q) :
  wf_expr self ->
  (forall (pre suf : dict) (old : Q),
      expr self = pre ++ (var, old) :: suf ->
      add_var (py_key_eq depth) self var coeff
      = Ok (set_expr self
              (if within_EPS (old + coeff) then pre ++ suf
               else pre ++ (var, (old + coeff)%Q) :: suf))
      /\ var ∉ keys (pre ++ suf))
  /\ (Var_idx var ∉ map Var_idx (keys (expr self)) ->
      add_var (py_key_eq depth) self var coeff
      = Ok (set_expr self (expr self ++ [(var, coeff)]))).
Proof.
  intros Hwf. split.
  - intros pre suf old Hsplit. split.
    + apply add_var_stored; assumption.
    + unfold wf_expr in Hwf. rewrite Hsplit in Hwf.
      eapply wf_dict_key_once, Hwf.
  - intros Hfresh. apply add_var_fresh. exact Hfresh.
Qed.

(** C9 (amended) at [x <= 0]: adding -1 to the coefficient 1 of [x]
    removes the term. *)
Lemma add_var_updates_or_inserts_witness :
  wf_expr x_le_0
  /\ add_var (py_key_eq recursion_limit) x_le_0 x_var (-1)
     = Ok (set_expr x_le_0 [])
  /\ add_var (py_key_eq recursion_limit) x_le_0 y_var (1 # 1000000000)
     = Ok (set_expr x_le_0 [(x_var, 1%Q); (y_var, 1 # 1000000000)]).
Proof.
  split; [exact x_le_0_wf|].
  destruct (add_var_updates_or_inserts recursion_limit x_le_0 x_var (-1) x_le_0_wf)
    as [Hstored _].
  destruct (add_var_updates_or_inserts recursion_limit x_le_0 y_var (1 # 1000000000)
              x_le_0_wf) as [_ Hfresh].
  split.
  - exact (proj1 (Hstored [] [] 1%Q eq_refl)).
  - apply Hfresh. cbn. intros Hin. apply list_elem_of_singleton in Hin.
    discriminate.
Defined.

(** C10 (the code departs from the claim): [x_other] is another handle
    object with the index of [x_var]; adding it to [x <= 0], where [x_var]
    is a key, raises [RecursionError] whatever the recursion limit, and
    merges nothing.  The dict compares the two handles with [Var.__eq__],
    which builds [LinExpr([x_var, x_other], [1, -1])], whose own [add_var]
    compares the two handles again. *)
Theorem add_var_other_handle_of_same_index (depth : nat) :
  x_other <> x_var
  /\ Var_idx x_other = Var_idx x_var
  /\ Var___eq__ depth x_var x_other = Raise RecursionError
  /\ add_var (py_key_eq depth) x_le_0 x_other 1 = Raise RecursionError.
Proof.
  split; [discriminate|]. split; [reflexivity|]. split.
  - apply Var___eq___same_hash; [discriminate | reflexivity].
  - apply add_var_clash.
    + cbn. intros Hin. apply list_elem_of_singleton in Hin. discriminate.
    + cbn. left.
Qed.

(** The handle that is the key merges, whatever the recursion limit. *)
Example add_var_same_handle (depth : nat) :
  add_var (py_key_eq depth) x_le_0 x_var 1
  = Ok (set_expr x_le_0 [(x_var, (1 + 1)%Q)]).
Proof. exact (add_var_stored _ x_le_0 [] [] x_var 1 1 x_le_0_wf eq_refl). Qed.

(** ** The hash of a tuple depends on the order of its items

    One round of [tuplehash] is a bijection on the accumulator: adding the
    lane, rotating and multiplying by an odd constant can each be undone.
    So two accumulators that differ before the last item still differ after
    it, whatever the hash of that item is. *)

Section HashOrder.

Local Open Scope Z_scope.

(** Rotate right by 31 bits. *)
Definition XXROTATE_back (y : Z) : Z :=
  Z.lor (Z.shiftr y 31) (Z.shiftl y 33) mod uhash_range.

Lemma testbit_above (x n : Z) :
  0 <= x < 2 ^ 64 -> 64 <= n -> Z.testbit x n = false.
Proof.
  intros Hx Hn. rewrite <- (Z.mod_small x (2 ^ 64)) by exact Hx.
  apply Z.mod_pow2_bits_high. lia.
Qed.

Lemma testbit_XXROTATE (x n : Z) :
  0 <= n < 64 ->
  Z.testbit (XXROTATE x) n = Z.testbit x (n - 31) || Z.testbit x (n + 33).
Proof.
  intros Hn. unfold XXROTATE. change uhash_range with (2 ^ 64).
  rewrite Z.mod_pow2_bits_low by lia.
  rewrite Z.lor_spec, Z.shiftl_spec, Z.shiftr_spec by lia. reflexivity.
Qed.

Lemma XXROTATE_range (x : Z) : 0 <= XXROTATE x < 2 ^ 64.
Proof. unfold XXROTATE. change uhash_range with (2 ^ 64). apply Z.mod_pos_bound. lia. Qed.

Lemma XXROTATE_back_XXROTATE (x : Z) :
  0 <= x < 2 ^ 64 -> XXROTATE_back (XXROTATE x) = x.
Proof.
  intros Hx. apply Z.bits_inj'. intros n Hn.
  destruct (Z_lt_le_dec n 64) as [Hlt|Hge].
  - unfold XXROTATE_back. change uhash_range with (2 ^ 64).
    rewrite Z.mod_pow2_bits_low by lia.
    rewrite Z.lor_spec, Z.shiftl_spec, Z.shiftr_spec by lia.
    destruct (Z_lt_le_dec n 33) as [Hlow|Hhigh].
    + rewrite testbit_XXROTATE by lia.
      rewrite (Z.testbit_neg_r (XXROTATE x) (n - 33)) by lia.
      replace (n + 31 - 31) with n by lia.
      rewrite (testbit_above x (n + 31 + 33)) by (auto; lia).
      rewrite !orb_false_r. reflexivity.
    + rewrite (testbit_above (XXROTATE x) (n + 31)) by (auto using XXROTATE_range; lia).
      rewrite testbit_XXROTATE by lia.
      rewrite (Z.testbit_neg_r x (n - 33 - 31)) by lia.
      replace (n - 33 + 33) with n by lia. reflexivity.
  - rewrite (testbit_above x n) by (auto; lia).
    unfold XXROTATE_back. change uhash_range with (2 ^ 64).
    apply Z.mod_pow2_bits_high. lia.
Qed.

(** The inverse of [XXPRIME_1] modulo 2^64. *)
Definition XXPRIME_1_inverse : Z := 614540362697595703.

(** The rotation and the multiplication of a round, and their inverse. *)
Definition mix (x : Z) : Z := (XXROTATE x * XXPRIME_1) mod uhash_range.
Definition mix_back (y : Z) : Z :=
  XXROTATE_back ((y * XXPRIME_1_inverse) mod uhash_range).

Lemma mix_back_mix (x : Z) : 0 <= x < 2 ^ 64 -> mix_back (mix x) = x.
Proof.
  intros Hx. unfold mix_back, mix.
  rewrite Z.mul_mod_idemp_l by discriminate.
  rewrite <- Z.mul_assoc, <- Z.mul_mod_idemp_r by discriminate.
  change ((XXPRIME_1 * XXPRIME_1_inverse) mod uhash_range) with 1.
  rewrite Z.mul_1_r.
  change uhash_range with (2 ^ 64).
  rewrite Z.mod_small by apply XXROTATE_range.
  apply XXROTATE_back_XXROTATE, Hx.
Qed.

Lemma mix_range (x : Z) : 0 <= mix x < 2 ^ 64.
Proof. unfold mix. change uhash_range with (2 ^ 64). apply Z.mod_pos_bound. lia. Qed.

Lemma tuplehash_round_mix (acc lane : Z) :
  tuplehash_round acc lane
  = mix ((acc + (lane mod uhash_range) * XXPRIME_2) mod uhash_range).
Proof. reflexivity. Qed.


Lemma tuplehash_finish_full (acc : Z) (len : nat) :
  (acc + Z.lxor (Z.of_nat len) (Z.lxor XXPRIME_5 3527539)) mod 2 ^ 64 = 2 ^ 64 - 1 ->
  tuplehash_finish acc len = 1546275796.
Proof.
  intros Hfull. unfold tuplehash_finish. change uhash_range with (2 ^ 64).
  rewrite Hfull. reflexivity.
Qed.

Lemma tuplehash_finish_signed (acc : Z) (len : nat) :
  (acc + Z.lxor (Z.of_nat len) (Z.lxor XXPRIME_5 3527539)) mod 2 ^ 64 <> 2 ^ 64 - 1 ->
  tuplehash_finish acc len mod 2 ^ 64
  = (acc + Z.lxor (Z.of_nat len) (Z.lxor XXPRIME_5 3527539)) mod 2 ^ 64.
Proof.
  intros Hother. unfold tuplehash_finish. change uhash_range with (2 ^ 64).
  set (f := (acc + Z.lxor (Z.of_nat len) (Z.lxor XXPRIME_5 3527539)) mod 2 ^ 64) in *.
  assert (Hf : 0 <= f < 2 ^ 64) by (apply Z.mod_pos_bound; reflexivity).
  destruct (Z.eqb_spec f (2 ^ 64 - 1)) as [Heq|_]; [contradiction|].
  destruct (Z.ltb_spec f (2 ^ 63)).
  - apply Z.mod_small. exact Hf.
  - revert Hf. generalize f. intros g Hg. Z.to_euclidean_division_equations. lia.
Qed.

(** Two accumulators that differ before the last item give different hashes,
    once the one way for the two results to meet is excluded: one result
    being the replacement value 1546275796 for a full accumulator while the
    other is that number itself. *)
Lemma tuplehash_last_lane (A B : Z) (len : nat) (lane : Z) :
  0 <= A < 2 ^ 64 -> 0 <= B < 2 ^ 64 -> A <> B ->
  tuplehash_finish
    (mix ((mix_back ((2 ^ 64 - 1 - Z.lxor (Z.of_nat len) (Z.lxor XXPRIME_5 3527539))
                     mod 2 ^ 64) + B - A) mod 2 ^ 64)) len <> 1546275796 ->
  tuplehash_finish
    (mix ((mix_back ((2 ^ 64 - 1 - Z.lxor (Z.of_nat len) (Z.lxor XXPRIME_5 3527539))
                     mod 2 ^ 64) + A - B) mod 2 ^ 64)) len <> 1546275796 ->
  tuplehash_finish (tuplehash_round A lane) len
  <> tuplehash_finish (tuplehash_round B lane) len.
Proof.
  intros HA HB Hne HsideB HsideA.
  rewrite !tuplehash_round_mix.
  set (u := (lane mod uhash_range) * XXPRIME_2).
  set (xa := (A + u) mod uhash_range). set (xb := (B + u) mod uhash_range).
  set (L := Z.lxor (Z.of_nat len) (Z.lxor XXPRIME_5 3527539)) in *.
  assert (Hxa : 0 <= xa < 2 ^ 64) by (apply Z.mod_pos_bound; reflexivity).
  assert (Hxb : 0 <= xb < 2 ^ 64) by (apply Z.mod_pos_bound; reflexivity).
  assert (Hba : xb = (xa + B - A) mod 2 ^ 64).
  { subst xa xb. change uhash_range with (2 ^ 64).
    generalize u. intros w. Z.to_euclidean_division_equations. lia. }
  assert (Hab : xa = (xb + A - B) mod 2 ^ 64).
  { subst xa xb. change uhash_range with (2 ^ 64).
    generalize u. intros w. Z.to_euclidean_division_equations. lia. }
  assert (Hx : xa <> xb).
  { intros Heq. rewrite Heq in Hba. clear - Hba Hxb HA HB Hne.
    revert Hba. Z.to_euclidean_division_equations. lia. }
  assert (Hmix : mix xa <> mix xb).
  { intros Heq. apply Hx.
    rewrite <- (mix_back_mix xa Hxa), <- (mix_back_mix xb Hxb), Heq.
    reflexivity. }
  pose proof (mix_range xa) as Hma. pose proof (mix_range xb) as Hmb.
  assert (Hfull : forall x, 0 <= x < 2 ^ 64 ->
            (mix x + L) mod 2 ^ 64 = 2 ^ 64 - 1 ->
            x = mix_back ((2 ^ 64 - 1 - L) mod 2 ^ 64)).
  { intros x Hrange Hx'. rewrite <- (mix_back_mix x Hrange) at 1. f_equal.
    pose proof (mix_range x) as Hm. revert Hx' Hm. generalize (mix x) L.
    intros g l Hg Hm. Z.to_euclidean_division_equations. lia. }
  destruct (Z.eq_dec ((mix xa + L) mod 2 ^ 64) (2 ^ 64 - 1)) as [Hfa|Hfa];
    destruct (Z.eq_dec ((mix xb + L) mod 2 ^ 64) (2 ^ 64 - 1)) as [Hfb|Hfb].
  - exfalso. apply Hx. rewrite (Hfull xa Hxa Hfa), (Hfull xb Hxb Hfb). reflexivity.
  - rewrite (tuplehash_finish_full (mix xa) len Hfa).
    rewrite Hba, (Hfull xa Hxa Hfa). intros Heq. apply HsideB. symmetry. exact Heq.
  - rewrite (tuplehash_finish_full (mix xb) len Hfb).
    rewrite Hab, (Hfull xb Hxb Hfb). exact HsideA.
  - intros Heq.
    pose proof (tuplehash_finish_signed (mix xa) len Hfa) as Hsa.
    pose proof (tuplehash_finish_signed (mix xb) len Hfb) as Hsb.
    rewrite Heq, Hsb in Hsa. apply Hmix.
    subst L. revert Hsa Hma Hmb.
    generalize (mix xa) (mix xb) (Z.lxor (Z.of_nat len) (Z.lxor XXPRIME_5 3527539)).
    clear. intros ga gb l Hs Hga Hgb. Z.to_euclidean_division_equations. lia.
Qed.

End HashOrder.

Lemma tuplehash_snoc (lanes : list Z) (lane : Z) :
  tuplehash (lanes ++ [lane])
  = tuplehash_finish
      (tuplehash_round (fold_left tuplehash_round lanes XXPRIME_5) lane)
      (S (length lanes)).
Proof.
  unfold tuplehash. rewrite fold_left_app, length_app. cbn [fold_left length].
  rewrite Nat.add_1_r. reflexivity.
Qed.

(** [x + 2*y <= 0] with [x] inserted first, and with [y] inserted first. *)
Definition xy_le_0 : LinExpr :=
  {| const := 0; expr := [(x_var, 1%Q); (y_var, 2%Q)]; sense := LESS_OR_EQUAL |}.
Definition yx_le_0 : LinExpr :=
  {| const := 0; expr := [(y_var, 2%Q); (x_var, 1%Q)]; sense := LESS_OR_EQUAL |}.

(** The hashes of the two plain sums [x + 2*y], whose sense is the empty
    string, as the interpreter prints them for the tuples
    [(0, 1, 1, 2, 0, '')] and [(1, 0, 2, 1, 0, '')]. *)
Example hash_of_plain_sums (hash_str : string -> Z) :
  LinExpr___hash__ (py_hash_tuple hash_str) (set_sense xy_le_0 "")
  = (-2183075304196838832)%Z
  /\ LinExpr___hash__ (py_hash_tuple hash_str) (set_sense yx_le_0 "")
     = (-6021675987053458776)%Z.
Proof. split; vm_compute; reflexivity. Qed.


Lemma hashEl_indices (e : LinExpr) :
  hashEl e
  = (map (fun z : Z => PyNum (inject_Z z)) (map Var_idx (keys (expr e)))
     ++ map PyNum (map snd (expr e)))
    ++ [PyNum (const e)] ++ [PyStr (sense e)].
Proof. unfold hashEl, keys. rewrite !List.map_map. reflexivity. Qed.


(** [x <= 0] written with the handle of the other model. *)
Definition x_other_le_0 : LinExpr :=
  {| const := 0; expr := [(x_other, 1%Q)]; sense := LESS_OR_EQUAL |}.


(** * Further properties of the code *)

(** ** Construction and the operators of class Var *)

Lemma set_expr_same (e : LinExpr) : set_expr e (expr e) = e.
Proof. destruct e. reflexivity. Qed.

Lemma wf_dict_nil : wf_dict [].
Proof. apply NoDup_nil_2. Qed.

Lemma wf_dict_singleton (v : Var) (c : Q) : wf_dict [(v, c)].
Proof. apply NoDup_singleton. Qed.

(** The terms [LinExpr(variables, coeffs)] keeps: those whose coefficient
    is not 0, in the order of the lists. *)
Definition nonzero_terms (variables : list Var) (coeffs : list Q) : dict :=
  List.filter (fun item => negb (Qeq_bool (snd item) 0)) (zip variables coeffs).

Lemma init_loop_distinct (key_eq : Var -> Var -> result bool)
    (variables : list Var) :
  forall (coeffs : list Q) (self : LinExpr),
    NoDup (map Var_idx variables) ->
    (forall v, v ∈ variables -> Var_idx v ∉ map Var_idx (keys (expr self))) ->
    init_loop key_eq self variables coeffs
    = Ok (set_expr self (expr self ++ nonzero_terms variables coeffs)).
Proof.
  induction variables as [|v vs IH]; intros coeffs self Hnd Hfresh.
  - cbn. rewrite app_nil_r, set_expr_same. reflexivity.
  - destruct coeffs as [|c cs].
    + cbn. rewrite app_nil_r, set_expr_same. reflexivity.
    + cbn [map] in Hnd. apply NoDup_cons in Hnd as [Hv Hnd].
      cbn [init_loop]. unfold nonzero_terms. cbn [zip zip_with List.filter snd].
      destruct (Qeq_bool c 0) eqn:Hc; cbn [negb].
      * apply IH; [exact Hnd|]. intros w Hw. apply Hfresh. right. exact Hw.
      * rewrite add_var_fresh by (apply Hfresh; left). rewrite bind_Ok.
        rewrite IH.
        -- cbn [set_expr expr const sense]. unfold nonzero_terms.
           rewrite <- app_assoc. reflexivity.
        -- exact Hnd.
        -- intros w Hw. cbn [set_expr expr]. unfold keys.
           rewrite !map_app. cbn [map fst]. intros Hin.
           apply elem_of_app in Hin as [Hin|Hin].
           ++ apply (Hfresh w); [right; exact Hw | exact Hin].
           ++ apply list_elem_of_singleton in Hin. apply Hv.
              rewrite <- Hin. apply list_elem_of_fmap. exists w. auto.
Qed.

(** X1: built from handles of pairwise different indices and as many
    coefficients, an expression holds exactly the terms whose coefficient
    is not 0, in the order given, and the constant and sense passed. *)
Theorem LinExpr_init_keeps_nonzero_terms (depth : nat)
    (variables : list Var) (coeffs : list Q) (const0 : Q) (sense0 : string) :
  NoDup (map Var_idx variables) ->
  length variables = length coeffs ->
  LinExpr_init (py_key_eq depth) variables coeffs const0 sense0
  = Ok {| const := const0; expr := nonzero_terms variables coeffs;
          sense := sense0 |}.
Proof.
  intros Hnd Hlen. unfold LinExpr_init.
  destruct variables as [|v vs].
  - destruct coeffs; [reflexivity | discriminate].
  - rewrite Hlen, Nat.eqb_refl.
    rewrite init_loop_distinct.
    + reflexivity.
    + exact Hnd.
    + intros w _ Hin. inversion Hin.
Qed.

(** X1 at [LinExpr([x, y], [0, 2], 5, "<")]: only the term of [y] is kept. *)
Lemma LinExpr_init_keeps_nonzero_terms_witness :
  NoDup (map Var_idx [x_var; y_var])
  /\ LinExpr_init (py_key_eq recursion_limit) [x_var; y_var] [0%Q; 2%Q] 5 "<"
     = Ok {| const := 5; expr := [(y_var, 2%Q)]; sense := "<" |}.
Proof.
  assert (Hnd : NoDup (map Var_idx [x_var; y_var])).
  { cbn. apply NoDup_cons. split.
    - intros Hin. apply list_elem_of_singleton in Hin. discriminate.
    - apply NoDup_singleton. }
  split; [exact Hnd|].
  exact (LinExpr_init_keeps_nonzero_terms recursion_limit [x_var; y_var]
           [0%Q; 2%Q] 5 "<" Hnd eq_refl).
Defined.

(** [LinExpr([a, b], [p, q])] for coefficients other than 0: the same
    handle twice is one term with the sum, or none when the sum lies within
    EPS of zero; two handles of one index cannot be compared; two handles of
    different indices are two terms. *)
Lemma LinExpr_init_pair (depth : nat) (a b : Var) (p q const0 : Q) (sense0 : string) :
  Qeq_bool p 0 = false -> Qeq_bool q 0 = false ->
  LinExpr_init (py_key_eq depth) [a; b] [p; q] const0 sense0
  = if decide (a = b) then
      Ok {| const := const0;
            expr := if within_EPS (p + q) then [] else [(a, (p + q)%Q)];
            sense := sense0 |}
    else if decide (Var_idx a = Var_idx b) then Raise RecursionError
    else Ok {| const := const0; expr := [(a, p); (b, q)]; sense := sense0 |}.
Proof.
  intros Hp Hq. unfold LinExpr_init. cbn [length Nat.eqb init_loop].
  rewrite Hp, Hq.
  rewrite add_var_fresh by (cbn; apply not_elem_of_nil).
  rewrite bind_Ok. cbn [set_expr expr const sense app].
  destruct (decide (a = b)) as [<-|Hne].
  - rewrite (add_var_stored _ _ [] [] a p q).
    + rewrite bind_Ok. cbn [set_expr expr const sense app].
      destruct (within_EPS (p + q)); reflexivity.
    + apply wf_dict_singleton.
    + reflexivity.
  - destruct (decide (Var_idx a = Var_idx b)) as [Hidx|Hidx].
    + rewrite add_var_clash; [reflexivity| |].
      * cbn. intros Hin. apply list_elem_of_singleton in Hin. congruence.
      * cbn. apply list_elem_of_singleton. symmetry. exact Hidx.
    + rewrite add_var_fresh.
      * reflexivity.
      * cbn. intros Hin. apply list_elem_of_singleton in Hin.
        apply Hidx. symmetry. exact Hin.
Qed.


(** X3: comparisons of two handles.  [x == y], [x <= y] and [x >= y] give
    the constraint [x - y (op) 0] with the terms in the order [x], [y] when
    the indices differ, the constraint without terms when [y] is [x]
    itself, and raise [RecursionError] for two different handle objects of
    one index; with no call of [Var.__eq__] left, [x == y] raises too. *)
Theorem Var_comparisons_on_handles (depth : nat) (x y : Var) :
  Var___eq__ 0 x y = Raise RecursionError
  /\ Var___eq__ (S depth) x y
     = (if decide (x = y) then Ok {| const := 0; expr := []; sense := "=" |}
        else if decide (Var_idx x = Var_idx y) then Raise RecursionError
        else Ok {| const := 0; expr := [(x, 1%Q); (y, (-1)%Q)]; sense := "=" |})
  /\ Var___le__ depth x (OVar y)
     = (if decide (x = y) then
          Ok (Some {| const := 0; expr := []; sense := "<" |})
        else if decide (Var_idx x = Var_idx y) then Raise RecursionError
        else Ok (Some {| const := 0; expr := [(x, 1%Q); (y, (-1)%Q)];
                         sense := "<" |}))
  /\ Var___ge__ depth x (OVar y)
     = (if decide (x = y) then
          Ok (Some {| const := 0; expr := []; sense := ">" |})
        else if decide (Var_idx x = Var_idx y) then Raise RecursionError
        else Ok (Some {| const := 0; expr := [(x, 1%Q); (y, (-1)%Q)];
                         sense := ">" |})).
Proof.
  split; [reflexivity|].
  cbn [Var___eq__]. unfold Var___le__, Var___ge__, Var_compare.
  change (fun a b : Var => Var___eq__ depth a b ≫= (fun _ => Ok true))
    with (py_key_eq depth).
  rewrite !LinExpr_init_pair by reflexivity.
  destruct (decide (x = y)); [|destruct (decide (Var_idx x = Var_idx y))];
    repeat split; reflexivity.
Qed.

(** ** Cancellation *)

Lemma within_EPS_of_zero (x : Q) : (x == 0)%Q -> within_EPS x = true.
Proof.
  intros Hx. unfold within_EPS. apply andb_true_intro. split.
  - apply Qle_bool_iff. rewrite Hx. discriminate.
  - apply Qle_bool_iff. rewrite Hx. discriminate.
Qed.

(** X4: adding a term for a handle whose index the expression does not
    hold, and then adding the opposite coefficient for the same handle,
    gives back the expression as it was: the term is removed, not kept with
    a zero coefficient. *)
Theorem add_var_then_cancel (depth : nat) (e : LinExpr) (v : Var) (c : Q) :
  Var_idx v ∉ map Var_idx (keys (expr e)) ->
  (e1 ← add_var (py_key_eq depth) e v c; add_var (py_key_eq depth) e1 v (- c))
  = Ok e.
Proof.
  intros Hfresh. rewrite add_var_fresh by exact Hfresh. rewrite bind_Ok.
  unfold add_var. cbn [set_expr expr].
  rewrite dict_contains_stored by exact Hfresh. rewrite bind_Ok.
  rewrite dict_getitem_stored by exact Hfresh. rewrite bind_Ok.
  rewrite within_EPS_of_zero by ring.
  rewrite dict_delitem_stored by exact Hfresh. rewrite bind_Ok.
  rewrite app_nil_r. destruct e. reflexivity.
Qed.

(** X4 at [x <= 0] and the handle [y]. *)
Lemma add_var_then_cancel_witness :
  (Var_idx y_var ∉ map Var_idx (keys (expr x_le_0)))
  /\ ((e1 ← add_var (py_key_eq recursion_limit) x_le_0 y_var (7 # 2);
       add_var (py_key_eq recursion_limit) e1 y_var (- (7 # 2)))
      = Ok x_le_0).
Proof.
  assert (Hfresh : Var_idx y_var ∉ map Var_idx (keys (expr x_le_0))).
  { cbn. intros Hin. apply list_elem_of_singleton in Hin. discriminate. }
  split; [exact Hfresh|].
  exact (add_var_then_cancel recursion_limit x_le_0 y_var (7 # 2) Hfresh).
Defined.

(** X5: for handles [x] and [y] of different indices and coefficients [a]
    and [b] other than 0, [(a*x + b*y) - (b*y)] is the expression whose only
    term is [a*x]: the term of [y] is removed. *)
Theorem sum_minus_summand (depth : nat) (x y : Var) (a b : Q) :
  Var_idx x <> Var_idx y ->
  Qeq_bool a 0 = false -> Qeq_bool b 0 = false ->
  (ax ← Var___mul__ depth x (ONum a);
   by_ ← Var___mul__ depth y (ONum b);
   total ← LinExpr___add__ (py_key_eq depth) ax (OExpr by_);
   LinExpr___sub__ (py_key_eq depth) total (OExpr by_))
  = Ok {| const := 0; expr := [(x, a)]; sense := "" |}.
Proof.
  intros Hidx Ha Hb. unfold Var___mul__, LinExpr_init.
  cbn [length Nat.eqb init_loop]. rewrite Ha, Hb.
  rewrite add_var_fresh by (cbn; apply not_elem_of_nil).
  rewrite !bind_Ok.
  rewrite add_var_fresh by (cbn; apply not_elem_of_nil).
  rewrite !bind_Ok. cbn [set_expr expr const sense app].
  unfold LinExpr___add__, add_expr.
  cbn [copy expr const sense set_const set_expr add_expr_loop].
  rewrite add_var_fresh.
  2:{ cbn. intros Hin. apply list_elem_of_singleton in Hin.
      apply Hidx. symmetry. exact Hin. }
  rewrite !bind_Ok. cbn [set_expr expr const sense app].
  unfold LinExpr___sub__, add_expr.
  cbn [copy expr const sense set_const set_expr add_expr_loop].
  rewrite (add_var_stored _ _ [(x, a)] [] y (b * 1)%Q (b * -1)%Q).
  - rewrite within_EPS_of_zero by ring. reflexivity.
  - unfold wf_expr, wf_dict. cbn. apply NoDup_cons. split.
    + intros Hin. apply list_elem_of_singleton in Hin. contradiction.
    + apply NoDup_singleton.
  - reflexivity.
Qed.

(** X5 at [(3*x + 2*y) - (2*y)]. *)
Lemma sum_minus_summand_witness :
  Var_idx x_var <> Var_idx y_var
  /\ ((ax ← Var___mul__ recursion_limit x_var (ONum 3);
       by_ ← Var___mul__ recursion_limit y_var (ONum 2);
       total ← LinExpr___add__ (py_key_eq recursion_limit) ax (OExpr by_);
       LinExpr___sub__ (py_key_eq recursion_limit) total (OExpr by_))
      = Ok {| const := 0; expr := [(x_var, 3%Q)]; sense := "" |}).
Proof.
  split; [discriminate|].
  apply (sum_minus_summand recursion_limit x_var y_var 3 2);
    [discriminate | reflexivity | reflexivity].
Defined.

Lemma add_expr_loop_cancel (key_eq : Var -> Var -> result bool) (items : dict) :
  forall self : LinExpr,
    expr self = items -> wf_dict items ->
    add_expr_loop key_eq self items (-1) = Ok (set_expr self []).
Proof.
  induction items as [|[v c] items IH]; intros self Hexpr Hwf.
  - cbn. rewrite <- Hexpr, set_expr_same. reflexivity.
  - cbn [add_expr_loop].
    rewrite (add_var_stored key_eq self [] items v c (c * -1)%Q).
    + rewrite within_EPS_of_zero by ring. rewrite bind_Ok. cbn [app].
      rewrite (IH (set_expr self items)).
      * reflexivity.
      * reflexivity.
      * apply (wf_dict_remove [] items v c). exact Hwf.
    + unfold wf_expr. rewrite Hexpr. exact Hwf.
    + exact Hexpr.
Qed.

(** X6: an expression minus itself has no terms, and its constant is zero
    as a number; the sense is the operand's. *)
Theorem LinExpr_minus_itself (depth : nat) (e : LinExpr) :
  wf_expr e ->
  LinExpr___sub__ (py_key_eq depth) e (OExpr e)
  = Ok {| const := const e + const e * -1; expr := []; sense := sense e |}
  /\ (const e + const e * -1 == 0)%Q.
Proof.
  intros Hwf. split; [|ring].
  unfold LinExpr___sub__, add_expr.
  rewrite (add_expr_loop_cancel _ (expr e)).
  - reflexivity.
  - reflexivity.
  - exact Hwf.
Qed.

Lemma xy_le_0_wf : wf_expr xy_le_0.
Proof.
  unfold wf_expr, wf_dict. cbn. apply NoDup_cons. split.
  - intros Hin. apply list_elem_of_singleton in Hin. discriminate.
  - apply NoDup_singleton.
Qed.

(** X6 at [x + 2*y <= 0]. *)
Lemma LinExpr_minus_itself_witness :
  wf_expr xy_le_0
  /\ LinExpr___sub__ (py_key_eq recursion_limit) xy_le_0 (OExpr xy_le_0)
     = Ok {| const := 0; expr := []; sense := "<" |}.
Proof.
  split; [exact xy_le_0_wf|].
  exact (proj1 (LinExpr_minus_itself recursion_limit xy_le_0 xy_le_0_wf)).
Defined.

(** X7: for handles [x] and [y] of different indices and a number [k], the
    comparisons [x + y <= k], [x + y >= k] and [x + y == k] give the terms
    [x] and [y] with coefficient 1, the constant [-k] (the right-hand side
    moved to the left) and the tag of the comparison. *)
Theorem sum_compared_with_number (depth : nat) (x y : Var) (k : Q) :
  Var_idx x <> Var_idx y ->
  exists e : LinExpr,
    Var___add__ depth x (OVar y) = Ok (Some e)
    /\ LinExpr___le__ (py_key_eq depth) e (ONum k)
       = Ok {| const := 0 + - k; expr := [(x, 1%Q); (y, 1%Q)]; sense := "<" |}
    /\ LinExpr___ge__ (py_key_eq depth) e (ONum k)
       = Ok {| const := 0 + - k; expr := [(x, 1%Q); (y, 1%Q)]; sense := ">" |}
    /\ LinExpr___eq__ (py_key_eq depth) e (ONum k)
       = Ok {| const := 0 + - k; expr := [(x, 1%Q); (y, 1%Q)]; sense := "=" |}.
Proof.
  intros Hidx. eexists. split.
  - unfold Var___add__. rewrite LinExpr_init_pair by reflexivity.
    destruct (decide (x = y)) as [->|_]; [contradiction|].
    destruct (decide (Var_idx x = Var_idx y)); [contradiction|].
    reflexivity.
  - repeat split; reflexivity.
Qed.

(** X7 at [x + y <= 3]. *)
Lemma sum_compared_with_number_witness :
  Var_idx x_var <> Var_idx y_var
  /\ exists e : LinExpr,
       Var___add__ recursion_limit x_var (OVar y_var) = Ok (Some e)
       /\ LinExpr___le__ (py_key_eq recursion_limit) e (ONum 3)
          = Ok {| const := -3; expr := [(x_var, 1%Q); (y_var, 1%Q)];
                  sense := "<" |}.
Proof.
  split; [discriminate|].
  destruct (sum_compared_with_number recursion_limit x_var y_var 3)
    as (e & Hadd & Hle & _); [discriminate|].
  exists e. split; [exact Hadd | exact Hle].
Defined.

(** ** One term per index, in every expression the algebra builds *)

Lemma keys_scale (k : Q) (d : dict) : keys (scale k d) = keys d.
Proof. unfold keys, scale. rewrite List.map_map. reflexivity. Qed.

Lemma LinExpr___imul___wf (key_eq : Var -> Var -> result bool)
    (self : LinExpr) (k : Q) :
  wf_expr self ->
  LinExpr___imul__ key_eq self (ONum k)
  = Ok {| const := const self * k; expr := scale k (expr self);
          sense := sense self |}.
Proof.
  intros Hwf. unfold LinExpr___imul__. cbn [set_const expr const sense].
  pose proof (mul_loop_scale key_eq k (expr self) [] Hwf) as Hloop.
  cbn [app] in Hloop. unfold keys in Hloop. rewrite Hloop, bind_Ok.
  reflexivity.
Qed.

Lemma add_term_wf (depth : nat) (self self' : LinExpr) (term : operand) (coeff : Q) :
  wf_expr self ->
  add_term (py_key_eq depth) self term coeff = Ok self' ->
  wf_expr self'.
Proof.
  intros Hwf Hrun. destruct term as [v|e|k|]; cbn [add_term] in Hrun.
  - eapply add_var_wf; [|exact Hrun]. exact Hwf.
  - eapply add_expr_wf; [|exact Hrun]. exact Hwf.
  - injection Hrun as <-. exact Hwf.
  - injection Hrun as <-. exact Hwf.
Qed.

Lemma xsum_loop_wf (depth : nat) (terms : list operand) :
  forall result0 e : LinExpr,
    wf_expr result0 ->
    xsum_loop (py_key_eq depth) result0 terms = Ok e ->
    wf_expr e.
Proof.
  induction terms as [|term terms IH]; intros result0 e Hwf Hrun;
    cbn [xsum_loop] in Hrun.
  - injection Hrun as <-. exact Hwf.
  - destruct (add_term (py_key_eq depth) result0 term 1) as [r1|err] eqn:Hadd;
      [|discriminate].
    rewrite bind_Ok in Hrun.
    eapply IH; [|exact Hrun]. eapply add_term_wf; eassumption.
Qed.

(** The expressions that the constructor, [xsum] and the methods of
    [LinExpr] produce, starting from nothing; for [__mul__] both the
    returned expression and the state it leaves in the operand. *)
Inductive built (depth : nat) : LinExpr -> Prop :=
  | built_init variables coeffs const0 sense0 e :
      LinExpr_init (py_key_eq depth) variables coeffs const0 sense0 = Ok e ->
      built depth e
  | built_xsum terms e :
      xsum (py_key_eq depth) terms = Ok e -> built depth e
  | built_copy self : built depth self -> built depth (copy self)
  | built_add_const self c : built depth self -> built depth (add_const self c)
  | built_add_var self v c e :
      built depth self -> add_var (py_key_eq depth) self v c = Ok e ->
      built depth e
  | built_add_expr self other c e :
      built depth self -> add_expr (py_key_eq depth) self other c = Ok e ->
      built depth e
  | built_add_term self term c e :
      built depth self -> add_term (py_key_eq depth) self term c = Ok e ->
      built depth e
  | built_add self other e :
      built depth self -> LinExpr___add__ (py_key_eq depth) self other = Ok e ->
      built depth e
  | built_sub self other e :
      built depth self -> LinExpr___sub__ (py_key_eq depth) self other = Ok e ->
      built depth e
  | built_iadd self other e :
      built depth self -> LinExpr___iadd__ (py_key_eq depth) self other = Ok e ->
      built depth e
  | built_isub self other e :
      built depth self -> LinExpr___isub__ (py_key_eq depth) self other = Ok e ->
      built depth e
  | built_mul self other r self' :
      built depth self ->
      LinExpr___mul__ (py_key_eq depth) self other = Ok (r, self') ->
      built depth r
  | built_mul_operand self other r self' :
      built depth self ->
      LinExpr___mul__ (py_key_eq depth) self other = Ok (r, self') ->
      built depth self'
  | built_imul self other e :
      built depth self -> LinExpr___imul__ (py_key_eq depth) self other = Ok e ->
      built depth e
  | built_le self other e :
      built depth self -> LinExpr___le__ (py_key_eq depth) self other = Ok e ->
      built depth e
  | built_ge self other e :
      built depth self -> LinExpr___ge__ (py_key_eq depth) self other = Ok e ->
      built depth e
  | built_eq self other e :
      built depth self -> LinExpr___eq__ (py_key_eq depth) self other = Ok e ->
      built depth e.

Lemma compare_wf (depth : nat) (self e : LinExpr) (other : operand) (tag : string) :
  wf_expr self ->
  (r ← LinExpr___sub__ (py_key_eq depth) self other; Ok (set_sense r tag)) = Ok e ->
  wf_expr e.
Proof.
  intros Hwf Hrun.
  destruct (LinExpr___sub__ (py_key_eq depth) self other) as [r|err] eqn:Hsub;
    [|discriminate].
  rewrite bind_Ok in Hrun. injection Hrun as <-.
  apply (LinExpr___sub___wf depth self r other Hwf Hsub).
Qed.

(** X8: every expression that the constructor, [xsum] and the methods of
    [LinExpr] build holds at most one term per variable index. *)
Theorem built_one_term_per_index (depth : nat) (e : LinExpr) :
  built depth e -> NoDup (map Var_idx (keys (expr e))).
Proof.
  intros Hbuilt. change (wf_expr e).
  induction Hbuilt as
    [variables coeffs const0 sense0 e Hrun
    |terms e Hrun
    |self Hself IH
    |self c Hself IH
    |self v c e Hself IH Hrun
    |self other c e Hself IH Hrun
    |self term c e Hself IH Hrun
    |self other e Hself IH Hrun
    |self other e Hself IH Hrun
    |self other e Hself IH Hrun
    |self other e Hself IH Hrun
    |self other r self' Hself IH Hrun
    |self other r self' Hself IH Hrun
    |self other e Hself IH Hrun
    |self other e Hself IH Hrun
    |self other e Hself IH Hrun
    |self other e Hself IH Hrun].
  - eapply LinExpr_init_wf, Hrun.
  - unfold xsum in Hrun. cbn [LinExpr_init] in Hrun. rewrite bind_Ok in Hrun.
    eapply xsum_loop_wf; [|exact Hrun]. apply wf_dict_nil.
  - exact IH.
  - exact IH.
  - eapply add_var_wf; eassumption.
  - eapply add_expr_wf; eassumption.
  - eapply add_term_wf; eassumption.
  - eapply LinExpr___add___wf; eassumption.
  - eapply LinExpr___sub___wf; eassumption.
  - destruct other as [v|o|k|]; cbn [LinExpr___iadd__] in Hrun.
    + eapply add_var_wf; eassumption.
    + eapply add_expr_wf; eassumption.
    + injection Hrun as <-. exact IH.
    + injection Hrun as <-. exact IH.
  - destruct other as [v|o|k|]; cbn [LinExpr___isub__] in Hrun.
    + eapply add_var_wf; eassumption.
    + eapply add_expr_wf; eassumption.
    + injection Hrun as <-. exact IH.
    + injection Hrun as <-. exact IH.
  - destruct other as [v|o|k|]; try discriminate.
    rewrite (LinExpr___mul___wf _ self k IH) in Hrun.
    injection Hrun as <- _. unfold wf_expr, wf_dict. cbn [expr].
    rewrite keys_scale. exact IH.
  - destruct other as [v|o|k|]; try discriminate.
    rewrite (LinExpr___mul___wf _ self k IH) in Hrun.
    injection Hrun as _ <-. exact IH.
  - destruct other as [v|o|k|]; try discriminate.
    rewrite (LinExpr___imul___wf _ self k IH) in Hrun.
    injection Hrun as <-. unfold wf_expr, wf_dict. cbn [expr].
    rewrite keys_scale. exact IH.
  - eapply compare_wf; eassumption.
  - eapply compare_wf; eassumption.
  - eapply compare_wf; eassumption.
Qed.

(** X8 at [(x + 2*y <= 0) * -1], built from the constructor. *)
Lemma built_one_term_per_index_witness :
  built recursion_limit
    {| const := 0 * -1; expr := [(x_var, (1 * -1)%Q); (y_var, (2 * -1)%Q)];
       sense := "<" |}
  /\ NoDup (map Var_idx
              (keys [(x_var, (1 * -1)%Q); (y_var, (2 * -1)%Q)])).
Proof.
  assert (Hbuilt : built recursion_limit
            {| const := 0 * -1;
               expr := [(x_var, (1 * -1)%Q); (y_var, (2 * -1)%Q)];
               sense := "<" |}).
  { eapply (built_mul recursion_limit xy_le_0 (ONum (-1))).
    - eapply (built_init recursion_limit [x_var; y_var] [1%Q; 2%Q] 0 "<").
      reflexivity.
    - reflexivity. }
  split; [exact Hbuilt|].
  exact (built_one_term_per_index recursion_limit _ Hbuilt).
Defined.

(** ** [equals], scaling and [xsum] *)

Lemma Qeq_bool_sym (a b : Q) : Qeq_bool a b = Qeq_bool b a.
Proof.
  destruct (Qeq_bool a b) eqn:Hab; destruct (Qeq_bool b a) eqn:Hba; try reflexivity.
  - apply Qeq_bool_iff in Hab. symmetry in Hab. apply Qeq_bool_iff in Hab.
    congruence.
  - apply Qeq_bool_iff in Hba. symmetry in Hba. apply Qeq_bool_iff in Hba.
    congruence.
Qed.

(** X9: on expressions with one term per index, [equals] never raises, is
    symmetric, and holds exactly when the constants are equal numbers, the
    senses are the same string and the numbers of terms agree; it does not
    depend on which variables or coefficients the two expressions hold. *)
Theorem equals_symmetric_and_coarse (depth : nat) (a b : LinExpr) :
  wf_expr a -> wf_expr b ->
  equals (py_key_eq depth) a b = equals (py_key_eq depth) b a
  /\ (equals (py_key_eq depth) a b = Ok true
      <-> (const a == const b)%Q /\ sense a = sense b
          /\ length (expr a) = length (expr b))
  /\ (equals (py_key_eq depth) a b = Ok false
      <-> ~ ((const a == const b)%Q /\ sense a = sense b
             /\ length (expr a) = length (expr b))).
Proof.
  intros Ha Hb.
  rewrite (equals_wf _ a b Ha), (equals_wf _ b a Hb).
  assert (Hdec :
    Qeq_bool (const a) (const b) && String.eqb (sense a) (sense b)
    && (length (expr a) =? length (expr b))%nat = true
    <-> (const a == const b)%Q /\ sense a = sense b
        /\ length (expr a) = length (expr b)).
  { rewrite !andb_true_iff, Qeq_bool_iff, String.eqb_eq, Nat.eqb_eq. tauto. }
  split; [|split].
  - rewrite (Qeq_bool_sym (const a)), (String.eqb_sym (sense a)),
      (Nat.eqb_sym (length (expr a))). reflexivity.
  - rewrite <- Hdec. split; [intros Heq; injection Heq as Heq; exact Heq|].
    intros ->. reflexivity.
  - rewrite <- Hdec.
    destruct (Qeq_bool (const a) (const b) && String.eqb (sense a) (sense b)
              && (length (expr a) =? length (expr b))%nat).
    + split; [discriminate | intros Hn; exfalso; apply Hn; reflexivity].
    + split; [intros _; discriminate | reflexivity].
Qed.

(** X9 at [x <= 0] and [2*x <= 0], which [equals] does not tell apart. *)
Lemma equals_symmetric_and_coarse_witness :
  wf_expr x_le_0 /\ wf_expr two_x_le_0
  /\ equals (py_key_eq recursion_limit) x_le_0 two_x_le_0
     = equals (py_key_eq recursion_limit) two_x_le_0 x_le_0.
Proof.
  assert (Htwo : wf_expr two_x_le_0) by apply wf_dict_singleton.
  split; [exact x_le_0_wf|]. split; [exact Htwo|].
  exact (proj1 (equals_symmetric_and_coarse recursion_limit x_le_0 two_x_le_0
                  x_le_0_wf Htwo)).
Defined.

(** X10: on an expression with one term per index, [self *= k] leaves in
    [self] the expression that [self * k] returns: the constant and every
    coefficient multiplied by [k], the keys in their order, and the sense
    as it was, also for a negative [k]; an operand that is not a number
    raises [AssertionError] in both. *)
Theorem imul_agrees_with_mul (depth : nat) (self : LinExpr) (k : Q) :
  wf_expr self ->
  exists r self' : LinExpr,
    LinExpr___mul__ (py_key_eq depth) self (ONum k) = Ok (r, self')
    /\ LinExpr___imul__ (py_key_eq depth) self (ONum k) = Ok r
    /\ const r = (const self * k)%Q
    /\ keys (expr r) = keys (expr self)
    /\ map snd (expr r) = map (fun c => (c * k)%Q) (map snd (expr self))
    /\ sense r = sense self
    /\ (forall other : operand,
          (forall q, other <> ONum q) ->
          LinExpr___mul__ (py_key_eq depth) self other = Raise AssertionError
          /\ LinExpr___imul__ (py_key_eq depth) self other = Raise AssertionError).
Proof.
  intros Hwf. eexists. eexists.
  split; [apply (LinExpr___mul___wf _ self k Hwf)|].
  split; [apply (LinExpr___imul___wf _ self k Hwf)|].
  cbn [const expr sense].
  split; [reflexivity|]. split; [apply keys_scale|].
  split; [unfold scale; rewrite !List.map_map; reflexivity|].
  split; [reflexivity|].
  intros other Hother. destruct other as [v|o|q|]; try (split; reflexivity).
  exfalso. apply (Hother q). reflexivity.
Qed.

(** X10 at [(x + 2*y <= 0) * -3]. *)
Lemma imul_agrees_with_mul_witness :
  wf_expr xy_le_0
  /\ LinExpr___imul__ (py_key_eq recursion_limit) xy_le_0 (ONum (-3))
     = Ok {| const := 0 * -3;
             expr := [(x_var, (1 * -3)%Q); (y_var, (2 * -3)%Q)];
             sense := "<" |}.
Proof.
  split; [exact xy_le_0_wf|].
  destruct (imul_agrees_with_mul recursion_limit xy_le_0 (-3) xy_le_0_wf)
    as (r & self' & Hmul & Himul & _).
  rewrite Himul. f_equal.
  rewrite (LinExpr___mul___wf _ xy_le_0 (-3) xy_le_0_wf) in Hmul.
  injection Hmul as <- _. reflexivity.
Defined.

Lemma scale_twice_values (d : dict) :
  Forall2 Qeq (map snd (scale (-1) (scale (-1) d))) (map snd d).
Proof.
  induction d as [|[v c] d IH]; cbn.
  - constructor.
  - constructor; [ring | exact IH].
Qed.

(** X11: on an expression with one term per index, negating the negation
    gives back the keys in their order, every coefficient and the constant
    as numbers, and the sense the expression had. *)
Theorem neg_twice (depth : nat) (e : LinExpr) :
  wf_expr e ->
  exists r1 e1 r2 r1' : LinExpr,
    LinExpr___neg__ (py_key_eq depth) e = Ok (r1, e1)
    /\ LinExpr___neg__ (py_key_eq depth) r1 = Ok (r2, r1')
    /\ keys (expr r2) = keys (expr e)
    /\ Forall2 Qeq (map snd (expr r2)) (map snd (expr e))
    /\ (const r2 == const e)%Q
    /\ sense r2 = sense e.
Proof.
  intros Hwf. unfold LinExpr___neg__.
  assert (Hwf1 : wf_expr {| const := const e * -1; expr := scale (-1) (expr e);
                            sense := sense e |}).
  { unfold wf_expr, wf_dict. cbn [expr]. rewrite keys_scale. exact Hwf. }
  do 4 eexists.
  split; [apply (LinExpr___mul___wf _ e (-1) Hwf)|].
  split; [apply (LinExpr___mul___wf _ _ (-1) Hwf1)|].
  cbn [const expr sense].
  split; [rewrite !keys_scale; reflexivity|].
  split; [apply scale_twice_values|].
  split; [ring | reflexivity].
Qed.

(** X11 at [x + 2*y <= 0]. *)
Lemma neg_twice_witness :
  wf_expr xy_le_0
  /\ exists r1 e1 r2 r1' : LinExpr,
       LinExpr___neg__ (py_key_eq recursion_limit) xy_le_0 = Ok (r1, e1)
       /\ LinExpr___neg__ (py_key_eq recursion_limit) r1 = Ok (r2, r1')
       /\ keys (expr r2) = [x_var; y_var]
       /\ sense r2 = "<".
Proof.
  split; [exact xy_le_0_wf|].
  destruct (neg_twice recursion_limit xy_le_0 xy_le_0_wf)
    as (r1 & e1 & r2 & r1' & H1 & H2 & Hkeys & _ & _ & Hsense).
  exists r1, e1, r2, r1'. repeat split; assumption.
Defined.

Lemma xsum_loop_distinct (key_eq : Var -> Var -> result bool) (vs : list Var) :
  forall result0 : LinExpr,
    NoDup (map Var_idx vs) ->
    (forall v, v ∈ vs -> Var_idx v ∉ map Var_idx (keys (expr result0))) ->
    xsum_loop key_eq result0 (map OVar vs)
    = Ok (set_expr result0 (expr result0 ++ map (fun v => (v, 1%Q)) vs)).
Proof.
  induction vs as [|v vs IH]; intros result0 Hnd Hfresh.
  - cbn. rewrite app_nil_r, set_expr_same. reflexivity.
  - cbn [map] in Hnd. apply NoDup_cons in Hnd as [Hv Hnd].
    cbn [map xsum_loop add_term].
    rewrite add_var_fresh by (apply Hfresh; left). rewrite bind_Ok.
    rewrite IH.
    + cbn [set_expr expr const sense]. rewrite <- app_assoc. reflexivity.
    + exact Hnd.
    + intros w Hw. cbn [set_expr expr]. unfold keys.
      rewrite !map_app. cbn [map fst]. intros Hin.
      apply elem_of_app in Hin as [Hin|Hin].
      * apply (Hfresh w); [right; exact Hw | exact Hin].
      * apply list_elem_of_singleton in Hin. apply Hv.
        rewrite <- Hin. apply list_elem_of_fmap. exists w. auto.
Qed.

(** X12: [xsum] over handles of pairwise different indices is the
    expression with one term of coefficient 1 per handle, in the order of
    the handles, constant 0 and no sense; over no terms it is the empty
    expression. *)
Theorem xsum_of_handles (depth : nat) (vs : list Var) :
  NoDup (map Var_idx vs) ->
  xsum (py_key_eq depth) (map OVar vs)
  = Ok {| const := 0; expr := map (fun v => (v, 1%Q)) vs; sense := "" |}.
Proof.
  intros Hnd. unfold xsum. cbn [LinExpr_init]. rewrite bind_Ok.
  rewrite xsum_loop_distinct.
  - reflexivity.
  - exact Hnd.
  - intros v _ Hin. inversion Hin.
Qed.

(** X12 at [xsum([x, y])]. *)
Lemma xsum_of_handles_witness :
  NoDup (map Var_idx [x_var; y_var])
  /\ xsum (py_key_eq recursion_limit) [OVar x_var; OVar y_var]
     = Ok {| const := 0; expr := [(x_var, 1%Q); (y_var, 1%Q)]; sense := "" |}.
Proof.
  assert (Hnd : NoDup (map Var_idx [x_var; y_var])).
  { cbn. apply NoDup_cons. split.
    - intros Hin. apply list_elem_of_singleton in Hin. discriminate.
    - apply NoDup_singleton. }
  split; [exact Hnd|].
  exact (xsum_of_handles recursion_limit [x_var; y_var] Hnd).
Defined.

(** ** The cut pool, over any sequence of calls *)

Section PoolRuns.

Variable depth : nat.
Variable hash_tuple : list pyobj -> Z.

(** X13: on a well-formed pool [add] does not raise; it leaves the stored
    cuts as they were or appends the cut, according to the boolean it
    returns; and submitting the same cut again right after is always
    refused and changes nothing. *)
Theorem CutPool_add_then_again (pool : CutPool) (cut : LinExpr) :
  pool_wf pool -> wf_expr cut ->
  exists (b : bool) (pool' : CutPool),
    CutPool_add (py_key_eq depth) hash_tuple pool cut = Ok (b, pool')
    /\ CutPool_cuts pool' = CutPool_cuts pool ++ (if b then [cut] else [])
    /\ pool_wf pool'
    /\ CutPool_add (py_key_eq depth) hash_tuple pool' cut = Ok (false, pool').
Proof.
  intros Hpool Hcut.
  destruct (add_scan_decides (py_key_eq depth) (CutPool_cuts pool)
              (bucket pool (LinExpr___hash__ hash_tuple cut)) cut
              (pool_wf_bucket pool (LinExpr___hash__ hash_tuple cut) Hpool))
    as [[Hrep _]|[Hnew _]].
  - exists false, pool.
    pose proof (CutPool_add_repeated (py_key_eq depth) hash_tuple pool cut
                  Hpool Hrep) as Hadd.
    split; [exact Hadd|]. split; [rewrite app_nil_r; reflexivity|].
    split; [exact Hpool | exact Hadd].
  - pose proof (CutPool_add_new (py_key_eq depth) hash_tuple pool cut
                  Hpool Hnew) as Hadd.
    eexists true, _. split; [exact Hadd|]. split; [reflexivity|].
    assert (Hpool' := CutPool_add_wf (py_key_eq depth) hash_tuple _ _ cut true
                        Hpool Hcut Hadd).
    split; [exact Hpool'|].
    apply CutPool_add_repeated; [exact Hpool'|].
    exists (length (CutPool_cuts pool)), cut.
    unfold bucket. cbn [CutPool_pos CutPool_cuts]. rewrite lookup_insert_eq.
    split; [|split].
    + simpl. apply elem_of_app. right. left.
    + rewrite lookup_app_r by lia. rewrite Nat.sub_diag. reflexivity.
    + apply equals_self, Hcut.
Qed.

(** The pools that a sequence of calls of [add] with well-formed cuts makes
    of a new pool. *)
Inductive pool_built : CutPool -> Prop :=
  | pool_built_init : pool_built CutPool_init
  | pool_built_add pool cut b pool' :
      pool_built pool -> wf_expr cut -> CutPool_add (py_key_eq depth) hash_tuple pool cut = Ok (b, pool') ->
      pool_built pool'.

(** Every stored cut is recorded in the bucket of its hash, a bucket holds
    only positions of cuts with its hash, and [equals] matches no two cuts
    stored at different positions of one bucket. *)
Definition pool_indexed (pool : CutPool) : Prop :=
  (forall (p : nat) (c : LinExpr),
      CutPool_cuts pool !! p = Some c -> p ∈ bucket pool (LinExpr___hash__ hash_tuple c))
  /\ (forall (h : Z) (p : nat) (c : LinExpr),
        p ∈ bucket pool h -> CutPool_cuts pool !! p = Some c -> LinExpr___hash__ hash_tuple c = h)
  /\ (forall (h : Z) (p q : nat) (sp sq : LinExpr),
        p ∈ bucket pool h -> q ∈ bucket pool h -> p <> q ->
        CutPool_cuts pool !! p = Some sp -> CutPool_cuts pool !! q = Some sq ->
        equals (py_key_eq depth) sp sq = Ok false).

Lemma bucket_valid (pool : CutPool) (h : Z) (p : nat) :
  pool_wf pool -> p ∈ bucket pool h -> (p < length (CutPool_cuts pool))%nat.
Proof.
  intros Hpool Hp.
  destruct (pool_wf_bucket pool h Hpool p Hp) as (stored & Hstored & _).
  eapply lookup_lt_Some, Hstored.
Qed.

Lemma equals_answer (a b : LinExpr) :
  wf_expr a -> wf_expr b ->
  equals (py_key_eq depth) a b <> Ok true ->
  equals (py_key_eq depth) a b = Ok false
  /\ equals (py_key_eq depth) b a = Ok false.
Proof.
  intros Ha Hb Hne.
  rewrite (equals_wf _ b a Hb), (equals_wf _ a b Ha) in *.
  rewrite (Qeq_bool_sym (const b)), (String.eqb_sym (sense b)),
    (Nat.eqb_sym (length (expr b))).
  destruct (Qeq_bool (const a) (const b) && String.eqb (sense a) (sense b)
            && (length (expr a) =? length (expr b))%nat).
  - exfalso. apply Hne. reflexivity.
  - split; reflexivity.
Qed.

Lemma pool_indexed_add_new (pool : CutPool) (cut : LinExpr) :
  pool_wf pool -> wf_expr cut -> pool_indexed pool ->
  ~ repeated_in (py_key_eq depth) (CutPool_cuts pool)
      (bucket pool (LinExpr___hash__ hash_tuple cut)) cut ->
  pool_indexed
    {| CutPool_cuts := CutPool_cuts pool ++ [cut];
       CutPool_pos :=
         <[LinExpr___hash__ hash_tuple cut := bucket pool (LinExpr___hash__ hash_tuple cut)
                          ++ [length (CutPool_cuts pool)]]> (CutPool_pos pool) |}.
Proof.
  intros Hpool Hcut (Hfind & Hhash & Hdistinct) Hnew.
  set (len := length (CutPool_cuts pool)).
  assert (Hbucket : forall h,
    bucket {| CutPool_cuts := CutPool_cuts pool ++ [cut];
              CutPool_pos := <[LinExpr___hash__ hash_tuple cut := bucket pool (LinExpr___hash__ hash_tuple cut) ++ [len]]>
                               (CutPool_pos pool) |} h
    = if decide (LinExpr___hash__ hash_tuple cut = h) then bucket pool h ++ [len] else bucket pool h).
  { intros h. unfold bucket at 1. cbn [CutPool_pos].
    destruct (decide (LinExpr___hash__ hash_tuple cut = h)) as [<-|Hne].
    - rewrite lookup_insert_eq. reflexivity.
    - rewrite lookup_insert_ne by exact Hne. reflexivity. }
  assert (Hold : forall p c, (p < len)%nat ->
    (CutPool_cuts pool ++ [cut]) !! p = Some c -> CutPool_cuts pool !! p = Some c).
  { intros p c Hlt Hlook. rewrite lookup_app_l in Hlook by exact Hlt. exact Hlook. }
  assert (Hlast : forall c, (CutPool_cuts pool ++ [cut]) !! len = Some c -> c = cut).
  { intros c Hlook. rewrite lookup_app_r in Hlook by (unfold len; lia).
    unfold len in Hlook. rewrite Nat.sub_diag in Hlook.
    injection Hlook as <-. reflexivity. }
  assert (Hin : forall h p,
    p ∈ (if decide (LinExpr___hash__ hash_tuple cut = h) then bucket pool h ++ [len] else bucket pool h) ->
    (p ∈ bucket pool h /\ (p < len)%nat) \/ (p = len /\ LinExpr___hash__ hash_tuple cut = h)).
  { intros h p Hp. destruct (decide (LinExpr___hash__ hash_tuple cut = h)) as [Heq|Hne].
    - apply elem_of_app in Hp as [Hp|Hp].
      + left. split; [exact Hp | eapply bucket_valid; eassumption].
      + right. apply list_elem_of_singleton in Hp. auto.
    - left. split; [exact Hp | eapply bucket_valid; eassumption]. }
  assert (Hcutwf : forall p c, CutPool_cuts pool !! p = Some c -> wf_expr c).
  { intros p c Hlook. apply (proj2 Hpool). eapply list_elem_of_lookup_2, Hlook. }
  split; [|split]; cbn [CutPool_cuts].
  - intros p c Hlook. rewrite Hbucket.
    destruct (Nat.lt_ge_cases p len) as [Hlt|Hge].
    + pose proof (Hfind p c (Hold p c Hlt Hlook)) as Hp.
      destruct (decide (LinExpr___hash__ hash_tuple cut = LinExpr___hash__ hash_tuple c)) as [Heq|_]; [|exact Hp].
      apply elem_of_app. left. exact Hp.
    + assert (p = len) as ->.
      { apply lookup_lt_Some in Hlook. rewrite length_app in Hlook.
        cbn in Hlook. unfold len in *. lia. }
      rewrite (Hlast c Hlook).
      destruct (decide (LinExpr___hash__ hash_tuple cut = LinExpr___hash__ hash_tuple cut)) as [_|Hne]; [|contradiction].
      apply elem_of_app. right. left.
  - intros h p c Hp Hlook. rewrite Hbucket in Hp.
    destruct (Hin h p Hp) as [[Hp' Hlt]|[-> Hh]].
    + eapply Hhash; [exact Hp' | apply Hold; assumption].
    + rewrite (Hlast c Hlook). exact Hh.
  - intros h p q sp sq Hp Hq Hne Hsp Hsq. rewrite Hbucket in Hp, Hq.
    destruct (Hin h p Hp) as [[Hp' Hplt]|[-> Hph]];
      destruct (Hin h q Hq) as [[Hq' Hqlt]|[-> Hqh]].
    + eapply (Hdistinct h p q); eauto.
    + rewrite (Hlast sq Hsq). subst h.
      apply (equals_answer sp cut); [eapply Hcutwf; eauto | exact Hcut |].
      intros Heq. apply Hnew. exists p, sp. auto.
    + rewrite (Hlast sp Hsp). subst h.
      apply (equals_answer sq cut); [eapply Hcutwf; eauto | exact Hcut |].
      intros Heq. apply Hnew. exists q, sq. auto.
    + contradiction.
Qed.

(** X14: in every pool made by calls of [add], each stored cut is recorded
    in the bucket of its hash, each bucket holds only positions of stored
    cuts with that hash, and no two cuts stored at different positions of
    one bucket are matched by [equals]. *)
Theorem pool_built_indexed (pool : CutPool) :
  pool_built pool -> pool_wf pool /\ pool_indexed pool.
Proof.
  intros Hbuilt.
  induction Hbuilt as [|pool cut b pool' Hbuilt [Hpool Hindexed] Hcut Hadd].
  - split; [exact CutPool_init_wf|].
    split; [|split].
    + intros p c Hlook. inversion Hlook.
    + intros h p c Hp. unfold bucket in Hp. cbn in Hp.
      rewrite lookup_empty in Hp. inversion Hp.
    + intros h p q sp sq Hp. unfold bucket in Hp. cbn in Hp.
      rewrite lookup_empty in Hp. inversion Hp.
  - split.
    + eapply CutPool_add_wf; eassumption.
    + destruct (add_scan_decides (py_key_eq depth) (CutPool_cuts pool)
                  (bucket pool (LinExpr___hash__ hash_tuple cut)) cut
                  (pool_wf_bucket pool (LinExpr___hash__ hash_tuple cut) Hpool))
        as [[Hrep _]|[Hnew _]].
      * rewrite (CutPool_add_repeated _ _ pool cut Hpool Hrep) in Hadd.
        injection Hadd as _ <-. exact Hindexed.
      * rewrite (CutPool_add_new _ _ pool cut Hpool Hnew) in Hadd.
        injection Hadd as _ <-.
        apply pool_indexed_add_new; assumption.
Qed.

End PoolRuns.

(** X13 at a new pool and the cut [x <= 0]. *)
Lemma CutPool_add_then_again_witness :
  pool_wf CutPool_init /\ wf_expr x_le_0
  /\ exists (b : bool) (pool' : CutPool),
       CutPool_add (py_key_eq recursion_limit) (py_hash_tuple (fun _ => 0%Z))
         CutPool_init x_le_0 = Ok (b, pool')
       /\ CutPool_add (py_key_eq recursion_limit) (py_hash_tuple (fun _ => 0%Z))
            pool' x_le_0 = Ok (false, pool').
Proof.
  split; [exact CutPool_init_wf|]. split; [exact x_le_0_wf|].
  destruct (CutPool_add_then_again recursion_limit (py_hash_tuple (fun _ => 0%Z))
              CutPool_init x_le_0 CutPool_init_wf x_le_0_wf)
    as (b & pool' & Hadd & _ & _ & Hagain).
  exists b, pool'. split; [exact Hadd | exact Hagain].
Defined.

Lemma new_pool_has_no_repeat (depth : nat) (hash_tuple : list pyobj -> Z)
    (cut : LinExpr) :
  ~ repeated_in (py_key_eq depth) (CutPool_cuts CutPool_init)
      (bucket CutPool_init (LinExpr___hash__ hash_tuple cut)) cut.
Proof.
  intros (p & stored & Hp & _). unfold bucket in Hp.
  cbn [CutPool_init CutPool_pos] in Hp. rewrite lookup_empty in Hp.
  inversion Hp.
Qed.

(** X14 at the pool made of a new pool by [add(x <= 0)]. *)
Lemma pool_built_indexed_witness :
  exists pool : CutPool,
    pool_built recursion_limit (py_hash_tuple (fun _ => 0%Z)) pool
    /\ CutPool_cuts pool = [x_le_0]
    /\ pool_wf pool
    /\ pool_indexed recursion_limit (py_hash_tuple (fun _ => 0%Z)) pool.
Proof.
  pose proof (CutPool_add_new (py_key_eq recursion_limit)
                (py_hash_tuple (fun _ => 0%Z)) CutPool_init x_le_0
                CutPool_init_wf
                (new_pool_has_no_repeat recursion_limit _ x_le_0)) as Hadd.
  eexists. 
  assert (Hbuilt := pool_built_add recursion_limit (py_hash_tuple (fun _ => 0%Z))
                      CutPool_init x_le_0 true _
                      (pool_built_init _ _) x_le_0_wf Hadd).
  split; [exact Hbuilt|]. split; [reflexivity|].
  exact (pool_built_indexed recursion_limit (py_hash_tuple (fun _ => 0%Z)) _ Hbuilt).
Defined.

(** ** The model: registries, status and queries *)

(** The list engine reads nothing, keeps no objective and reports [OPTIMAL]. *)
#[global] Instance ListSolver_Search : SolverSearch ListSolver := {|
  solver_set_objective := fun s _ => s;
  solver_set_num_threads := fun s _ => s;
  solver_set_processing_limits := fun s _ _ _ => s;
  solver_optimize := fun s => (OPTIMAL, s);
  solver_read := fun s _ => s;
  solver_num_rows := fun s => Z.of_nat (length (ls_rows s));
  solver_var_get_name := fun s i => fst (fst (nth (Z.to_nat i) (ls_cols s)
                                        ("", (Finite 0, PosInf), (0%Q, CONTINUOUS))));
  solver_constr_get_name := fun s i =>
    fst (nth (Z.to_nat i) (ls_rows s) ("", {| const := 0; expr := []; sense := "" |}))
|}.

(** *** Names of variables

    What [add_var] does to the name is stated against two readings that do
    not go through [blank] and [format_011d]: the white space of a name
    character by character, and the number a string of digits denotes. *)

(** The code points below 256 for which [str.isspace] holds. *)
Definition white_code_points : list nat :=
  [9; 10; 11; 12; 13; 28; 29; 30; 31; 32; 133; 160]%nat.

Definition is_white (a : ascii) : Prop := nat_of_ascii a ∈ white_code_points.

(** The value of a decimal digit. *)
Definition digit_of (a : ascii) : option Z :=
  let n := nat_of_ascii a in
  if ((48 <=? n) && (n <=? 57))%nat then Some (Z.of_nat n - 48)%Z else None.

(** The number that a string of decimal digits denotes, read from the
    left; [None] when a character is no digit. *)
Fixpoint decimal_go (acc : Z) (s : string) : option Z :=
  match s with
  | EmptyString => Some acc
  | String a s' =>
      match digit_of a with
      | Some d => decimal_go (10 * acc + d) s'
      | None => None
      end
  end.

Definition decimal (s : string) : option Z := decimal_go 0 s.

Lemma is_space_white (a : ascii) : is_space a = bool_decide (is_white a).
Proof.
  destruct a as [[] [] [] [] [] [] [] []]; vm_compute; reflexivity.
Qed.

Lemma blank_all_white (s : string) :
  blank s = true <-> Forall is_white (list_ascii_of_string s).
Proof.
  induction s as [|a s IH]; cbn [blank list_ascii_of_string].
  - split; [intros _; apply Forall_nil_2 | reflexivity].
  - rewrite andb_true_iff, IH, is_space_white, bool_decide_eq_true.
    rewrite Forall_cons. reflexivity.
Qed.

Lemma blank_some_not_white (s : string) :
  blank s = false <-> Exists (fun a => ~ is_white a) (list_ascii_of_string s).
Proof.
  induction s as [|a s IH]; cbn [blank list_ascii_of_string].
  - split; [discriminate | intros Hex; inversion Hex].
  - rewrite andb_false_iff, IH, is_space_white, bool_decide_eq_false.
    rewrite Exists_cons. reflexivity.
Qed.

Lemma string_length_app (s1 s2 : string) :
  String.length (s1 +:+ s2) = (String.length s1 + String.length s2)%nat.
Proof.
  induction s1 as [|a s1 IH]; [reflexivity|].
  change (String a s1 +:+ s2) with (String a (s1 +:+ s2)).
  cbn [String.length Nat.add]. f_equal. exact IH.
Qed.

Lemma zeros_length (n : nat) : String.length (zeros n) = n.
Proof.
  induction n as [|n IH]; [reflexivity|].
  change (zeros (Datatypes.S n)) with (String "0" (zeros n)).
  cbn [String.length]. f_equal. exact IH.
Qed.

Lemma decimal_go_zeros (n : nat) (s : string) :
  decimal_go 0 (zeros n +:+ s) = decimal_go 0 s.
Proof.
  induction n as [|n IH]; [reflexivity|].
  change (zeros (Datatypes.S n) +:+ s) with (String "0" (zeros n +:+ s)).
  cbn [decimal_go]. change (digit_of "0") with (Some 0%Z). exact IH.
Qed.

Lemma digit_of_pretty_N_char (d : N) :
  (d < 10)%N -> digit_of (pretty_N_char d) = Some (Z.of_N d).
Proof.
  intros Hd.
  assert (Hcases : d = 0%N \/ d = 1%N \/ d = 2%N \/ d = 3%N \/ d = 4%N \/ d = 5%N
                   \/ d = 6%N \/ d = 7%N \/ d = 8%N \/ d = 9%N) by lia.
  destruct Hcases as [->|[->|[->|[->|[->|[->|[->|[->|[->| ->]]]]]]]]];
    reflexivity.
Qed.

(** The digits that [pretty] writes in front of [s]: their number [k] is
    the number of decimal digits of [x], and read back they give [x]. *)
Lemma pretty_N_go_decimal (x : N) :
  forall s : string,
    exists k : nat,
      String.length (pretty_N_go x s) = (k + String.length s)%nat
      /\ (Z.of_N x < 10 ^ Z.of_nat k)%Z
      /\ ((0 < x)%N -> (10 ^ Z.of_nat k <= 10 * Z.of_N x)%Z)
      /\ (forall acc : Z,
            decimal_go acc (pretty_N_go x s)
            = decimal_go (acc * 10 ^ Z.of_nat k + Z.of_N x) s).
Proof.
  induction (N.lt_wf_0 x) as [x _ IH]. intros s.
  destruct (decide (x = 0%N)) as [->|Hpos].
  - exists 0%nat. rewrite pretty_N_go_0. cbn [Nat.add].
    split; [reflexivity|]. split; [reflexivity|]. split; [lia|].
    intros acc. f_equal. change (10 ^ Z.of_nat 0)%Z with 1%Z. cbn. lia.
  - assert (Hx : (0 < x)%N) by lia.
    rewrite pretty_N_go_step by exact Hx.
    destruct (IH (x `div` 10)%N (N.div_lt x 10 Hx eq_refl)
                (String (pretty_N_char (x `mod` 10)) s))
      as (k & Hlen & Hupper & Hlower & Hvalue).
    exists (Datatypes.S k).
    assert (Hsplit : Z.of_N x = (10 * Z.of_N (x `div` 10) + Z.of_N (x `mod` 10))%Z).
    { rewrite (N.div_mod x 10) at 1 by lia. lia. }
    assert (Hmod : (x `mod` 10 < 10)%N) by (apply N.mod_lt; lia).
    assert (Hpow : (10 ^ Z.of_nat (Datatypes.S k) = 10 * 10 ^ Z.of_nat k)%Z).
    { rewrite Nat2Z.inj_succ, Z.pow_succ_r by lia. reflexivity. }
    split; [|split; [|split]].
    + rewrite Hlen. cbn [String.length]. lia.
    + rewrite Hpow. lia.
    + intros _. rewrite Hpow.
      destruct (decide (x `div` 10 = 0)%N) as [Hzero|Hdiv].
      * rewrite Hzero, pretty_N_go_0 in Hlen.
        assert (k = 0%nat) by lia. subst k.
        change (10 ^ Z.of_nat 0)%Z with 1%Z. lia.
      * assert (Hk : (10 ^ Z.of_nat k <= 10 * Z.of_N (x `div` 10))%Z)
          by (apply Hlower; lia).
        assert (Hm : (0 <= Z.of_N (x `mod` 10))%Z) by apply N2Z.is_nonneg.
        revert Hk Hsplit Hm. generalize (10 ^ Z.of_nat k)%Z (Z.of_N (x `div` 10))
          (Z.of_N (x `mod` 10)) (Z.of_N x). intros; lia.
    + intros acc. rewrite Hvalue. cbn [decimal_go].
      rewrite (digit_of_pretty_N_char _ Hmod). f_equal.
      rewrite Hpow. lia.
Qed.

(** ["{:011d}".format(n)] for [n] not negative: digits that read back as
    [n], at least 11 of them, and exactly 11 when [n] has at most 11
    digits. *)
Lemma format_011d_decimal (n : Z) :
  (0 <= n)%Z ->
  decimal (format_011d n) = Some n
  /\ (11 <= String.length (format_011d n))%nat
  /\ ((n < 10 ^ 11)%Z -> String.length (format_011d n) = 11%nat).
Proof.
  intros Hn. unfold format_011d.
  destruct (n <? 0)%Z eqn:Hneg; [lia|]. clear Hneg. cbv zeta.
  destruct n as [|p|p]; [| |lia].
  - split; [reflexivity|]. split; [vm_compute; lia|]. reflexivity.
  - change (pretty (Z.pos p)) with (pretty_N_go (N.pos p) "").
    destruct (pretty_N_go_decimal (N.pos p) "")
      as (k & Hlen & Hupper & Hlower & Hvalue).
    cbn [String.length] in Hlen. rewrite Nat.add_0_r in Hlen.
    assert (Hlow : (10 ^ Z.of_nat k <= 10 * Z.of_N (N.pos p))%Z) by (apply Hlower; lia).
    unfold decimal. rewrite decimal_go_zeros, Hvalue.
    rewrite string_length_app, zeros_length, Hlen.
    split; [cbn [decimal_go]; f_equal; cbn; lia|].
    split; [lia|].
    intros Hsmall.
    assert (Hk : (k <= 11)%nat).
    { destruct (le_lt_dec k 11) as [Hle|Hgt]; [exact Hle|].
      assert (10 ^ 12 <= 10 ^ Z.of_nat k)%Z by (apply Z.pow_le_mono_r; lia).
      change (Z.of_N (N.pos p)) with (Z.pos p) in Hlow. lia. }
    lia.
Qed.

Section ModelFacts.

Context {S : Type} `{Solver S} `{SolverSearch S}.

(** The name under which [add_var] registers the handle. *)
Definition registered_name (self : Model S) (name : string) : string :=
  if blank name
  then "C" +:+ format_011d (solver_num_cols (Model_solver self))
  else name.

(** X15: [add_var] appends one handle to [vars] and enters it in the name
    map under the handle's name, so [get_var_by_name] finds it; lookups of
    other names, the constraints, the status and the cuts setting stay as
    they were.  The handle's name is the name given when that has a
    character that is not white space; when every character is white space
    (the empty name included) and the engine's column count is not
    negative, it is "C" followed by decimal digits that denote the column
    count, at least 11 of them and exactly 11 for a count below 10^11. *)
Theorem add_var_registers (self : Model S) (addr : nat) (name : string)
    (lb ub : bound) (obj : Q) (var_type : string) (column : option Column) :
  exists (v : Var) (m' : Model S),
    Model_add_var self addr name lb ub obj var_type column = (v, m')
    /\ (Exists (fun a => ~ is_white a) (list_ascii_of_string name) ->
        Var_name v = name)
    /\ (Forall is_white (list_ascii_of_string name) ->
        (0 <= solver_num_cols (Model_solver self))%Z ->
        exists digits : string,
          Var_name v = String "C" digits
          /\ decimal digits = Some (solver_num_cols (Model_solver self))
          /\ (11 <= String.length digits)%nat
          /\ ((solver_num_cols (Model_solver self) < 10 ^ 11)%Z ->
              String.length digits = 11%nat))
    /\ Var_model v = Model_addr self
    /\ Model_vars m' = Model_vars self ++ [v]
    /\ Model_num_cols m' = Datatypes.S (Model_num_cols self)
    /\ Model_get_var_by_name m' (Var_name v) = Some v
    /\ (forall other : string,
          other <> Var_name v ->
          Model_get_var_by_name m' other = Model_get_var_by_name self other)
    /\ Model_constrs m' = Model_constrs self
    /\ Model_constrs_by_name m' = Model_constrs_by_name self
    /\ Model_status m' = Model_status self
    /\ Model_cuts m' = Model_cuts self.
Proof.
  unfold Model_add_var, Model_get_var_by_name, Model_num_cols.
  destruct (String.eqb var_type BINARY);
    destruct (solver_add_var (Model_solver self) obj _ _ var_type column
                (if blank name
                 then "C" +:+ format_011d (solver_num_cols (Model_solver self))
                 else name)) as [idx solver] eqn:Hadd;
    (eexists; eexists; split; [reflexivity|]);
    cbn [Var_name Var_model Model_vars Model_vars_by_name Model_constrs
         Model_constrs_by_name Model_status Model_cuts];
    (split; [intros Hsome; apply blank_some_not_white in Hsome;
             rewrite Hsome; reflexivity|]);
    (split; [intros Hall Hcols; apply blank_all_white in Hall; rewrite Hall;
             destruct (format_011d_decimal _ Hcols) as (Hvalue & Hlong & Hwidth);
             exists (format_011d (solver_num_cols (Model_solver self)));
             repeat split; assumption|]);
    (split; [reflexivity|]); (split; [reflexivity|]);
    (split; [rewrite length_app; cbn; lia|]);
    (split; [apply lookup_insert_eq|]);
    (split; [intros other Hother; apply lookup_insert_ne; congruence|]);
    repeat split; reflexivity.
Qed.

(** X16: a variable of kind [BINARY] is handed to the engine with the bounds
    0 and 1 whatever bounds the caller passes, so the call gives the same
    handle and the same model for any two pairs of bounds. *)
Theorem add_var_binary_bounds (self : Model S) (addr : nat) (name : string)
    (lb ub lb' ub' : bound) (obj : Q) (column : option Column) :
  Model_add_var self addr name lb ub obj BINARY column
  = Model_add_var self addr name lb' ub' obj BINARY column
  /\ Model_solver (snd (Model_add_var self addr name lb ub obj BINARY column))
     = snd (solver_add_var (Model_solver self) obj (Finite 0) (Finite 1) BINARY
              column (registered_name self name))
  /\ Var_idx (fst (Model_add_var self addr name lb ub obj BINARY column))
     = fst (solver_add_var (Model_solver self) obj (Finite 0) (Finite 1) BINARY
              column (registered_name self name)).
Proof.
  unfold Model_add_var, registered_name.
  change (String.eqb BINARY BINARY) with true. cbv iota.
  destruct (solver_add_var (Model_solver self) obj (Finite 0) (Finite 1) BINARY
              column _) as [idx solver].
  repeat split; reflexivity.
Qed.

(** X17: two constraints added under one name, the default name "" for
    instance, are both appended to [constrs], in the order of the calls, and
    [get_constr_by_name] finds the second one only; the engine receives the
    second expression in the state the first call left. *)
Theorem add_constr_twice_same_name (self : Model S) (e1 e2 : LinExpr) (name : string) :
  exists (c1 c2 : Constr) (m1 m2 : Model S),
    Model_add_constr self (ArgExpr e1) name = (Some c1, m1)
    /\ Model_add_constr m1 (ArgExpr e2) name = (Some c2, m2)
    /\ Model_constrs m2 = Model_constrs self ++ [c1; c2]
    /\ Model_get_constr_by_name m1 name = Some c1
    /\ Model_get_constr_by_name m2 name = Some c2
    /\ Constr_idx c1 = fst (solver_add_constr (Model_solver self) e1 name)
    /\ Constr_idx c2 = fst (solver_add_constr (Model_solver m1) e2 name)
    /\ Model_vars m2 = Model_vars self
    /\ Model_status m2 = Model_status self.
Proof.
  unfold Model_add_constr, Model_get_constr_by_name.
  destruct (solver_add_constr (Model_solver self) e1 name) as [idx1 s1] eqn:H1.
  destruct (solver_add_constr s1 e2 name) as [idx2 s2] eqn:H2.
  eexists. eexists. eexists. eexists.
  split; [reflexivity|].
  cbn [Model_solver]. rewrite H2.
  split; [reflexivity|].
  cbn [Model_constrs Model_constrs_by_name Model_vars Model_status Constr_idx fst].
  split; [rewrite <- app_assoc; reflexivity|].
  split; [apply lookup_insert_eq|].
  split; [apply lookup_insert_eq|].
  repeat split; reflexivity.
Qed.

End ModelFacts.

(** The methods that add terms leave the sense of the expression alone. *)
Lemma add_var_sense (key_eq : Var -> Var -> result bool) (self e : LinExpr)
    (v : Var) (c : Q) :
  add_var key_eq self v c = Ok e -> sense e = sense self.
Proof.
  unfold add_var. intros Hrun.
  destruct (dict_contains key_eq (expr self) v) as [[|]|err]; [| |discriminate];
    rewrite bind_Ok in Hrun.
  - destruct (dict_getitem key_eq (expr self) v) as [old|err]; [|discriminate].
    rewrite bind_Ok in Hrun.
    destruct (within_EPS (old + c)).
    + destruct (dict_delitem key_eq (expr self) v) as [d|err]; [|discriminate].
      rewrite bind_Ok in Hrun. injection Hrun as <-. reflexivity.
    + rewrite bind_Ok in Hrun.
      destruct (dict_setitem key_eq (expr self) v (old + c)) as [d|err]; [|discriminate].
      rewrite bind_Ok in Hrun. injection Hrun as <-. reflexivity.
  - destruct (dict_setitem key_eq (expr self) v c) as [d|err]; [|discriminate].
    rewrite bind_Ok in Hrun. injection Hrun as <-. reflexivity.
Qed.

Lemma add_expr_loop_sense (key_eq : Var -> Var -> result bool) (items : dict) :
  forall (self e : LinExpr) (c : Q),
    add_expr_loop key_eq self items c = Ok e -> sense e = sense self.
Proof.
  induction items as [|[var coeff_var] rest IH]; intros self e c Hrun; cbn in Hrun.
  - injection Hrun as <-. reflexivity.
  - destruct (add_var key_eq self var (coeff_var * c)) as [self'|err] eqn:Hadd;
      [|discriminate].
    rewrite bind_Ok in Hrun.
    rewrite (IH _ _ _ Hrun). apply (add_var_sense _ _ _ _ _ Hadd).
Qed.

Lemma add_term_sense (key_eq : Var -> Var -> result bool) (self e : LinExpr)
    (term : operand) (c : Q) :
  add_term key_eq self term c = Ok e -> sense e = sense self.
Proof.
  destruct term as [v|other|k|]; cbn; intros Hrun.
  - apply (add_var_sense _ _ _ _ _ Hrun).
  - unfold add_expr in Hrun. apply (add_expr_loop_sense _ _ _ _ _ Hrun).
  - injection Hrun as <-. reflexivity.
  - injection Hrun as <-. reflexivity.
Qed.

Lemma xsum_loop_sense (key_eq : Var -> Var -> result bool) (terms : list operand) :
  forall self e : LinExpr,
    xsum_loop key_eq self terms = Ok e -> sense e = sense self.
Proof.
  induction terms as [|term rest IH]; intros self e Hrun; cbn in Hrun.
  - injection Hrun as <-. reflexivity.
  - destruct (add_term key_eq self term 1) as [self'|err] eqn:Hadd; [|discriminate].
    rewrite bind_Ok in Hrun.
    rewrite (IH _ _ Hrun). apply (add_term_sense _ _ _ _ _ Hadd).
Qed.

Section ModelRuns.

Context {S : Type} `{Solver S} `{SolverSearch S}.

Variable depth : nat.

(** The models a program reaches from the constructor without a call of
    [optimize]. *)
Inductive assembled : Model S -> Prop :=
  | assembled_init (addr : nat) (name sense0 solver_name : string) :
      assembled (Model_init addr name sense0 solver_name)
  | assembled_add_var (m : Model S) (addr : nat) (name : string) (lb ub : bound)
      (obj : Q) (var_type : string) (column : option Column) :
      assembled m ->
      assembled (snd (Model_add_var m addr name lb ub obj var_type column))
  | assembled_add_constr (m : Model S) (arg : constr_arg) (name : string) :
      assembled m -> assembled (snd (Model_add_constr m arg name))
  | assembled_set_cuts (m : Model S) (cuts : Z) :
      assembled m -> assembled (snd (Model_set_cuts m cuts))
  | assembled_set_objective (m m' : Model S) (e : operand) :
      assembled m -> Model_set_objective depth m e = Ok m' -> assembled m'
  | assembled_iadd (m m' : Model S) (other : iadd_arg) :
      assembled m -> Model___iadd__ depth m other = Ok m' -> assembled m'
  | assembled_read (m : Model S) (path : string) (fresh : nat -> nat) :
      assembled m -> assembled (Model_read m path fresh).

Lemma Model_add_var_status (m : Model S) (addr : nat) (name : string)
    (lb ub : bound) (obj : Q) (var_type : string) (column : option Column) :
  Model_status (snd (Model_add_var m addr name lb ub obj var_type column))
  = Model_status m.
Proof.
  unfold Model_add_var.
  destruct (String.eqb var_type BINARY);
    destruct (solver_add_var (Model_solver m) obj _ _ var_type column _);
    reflexivity.
Qed.

Lemma Model_add_constr_status (m : Model S) (arg : constr_arg) (name : string) :
  Model_status (snd (Model_add_constr m arg name)) = Model_status m.
Proof.
  unfold Model_add_constr.
  destruct arg as [b|e]; [reflexivity|].
  destruct (solver_add_constr (Model_solver m) e name). reflexivity.
Qed.

Lemma Model_set_objective_status (m m' : Model S) (e : operand) :
  Model_set_objective depth m e = Ok m' -> Model_status m' = Model_status m.
Proof.
  destruct e as [v|le|k|]; cbn [Model_set_objective]; intros Hrun.
  - destruct (LinExpr_init (py_key_eq depth) [v] [1%Q] 0 "") as [le|err];
      [|discriminate].
    rewrite bind_Ok in Hrun. injection Hrun as <-. reflexivity.
  - injection Hrun as <-. reflexivity.
  - cbn [LinExpr_init] in Hrun. rewrite bind_Ok in Hrun.
    injection Hrun as <-. reflexivity.
  - injection Hrun as <-. reflexivity.
Qed.

Lemma Model___iadd___status (m m' : Model S) (other : iadd_arg) :
  Model___iadd__ depth m other = Ok m' -> Model_status m' = Model_status m.
Proof.
  destruct other as [e|e name| |e|]; cbn [Model___iadd__]; intros Hrun;
    try discriminate.
  - destruct (String.length (sense e) =? 0)%nat.
    + apply (Model_set_objective_status _ _ _ Hrun).
    + injection Hrun as <-. apply (Model_add_constr_status m (ArgExpr e) "").
  - destruct (String.length (sense e) =? 0)%nat.
    + apply (Model_set_objective_status _ _ _ Hrun).
    + injection Hrun as <-. apply (Model_add_constr_status m (ArgExpr e) name).
  - injection Hrun as <-. reflexivity.
Qed.

(** What the two loops of [Model.read] leave. *)
Lemma read_vars_appends (fresh : nat -> nat) (columns : list nat) :
  forall m : Model S,
    Model_vars (read_vars m fresh columns)
    = Model_vars m
      ++ map (fun i => mkVar (Model_addr m) (Z.of_nat i)
                         (solver_var_get_name (Model_solver m) (Z.of_nat i)) (fresh i))
           columns
    /\ Model_solver (read_vars m fresh columns) = Model_solver m
    /\ Model_addr (read_vars m fresh columns) = Model_addr m
    /\ Model_constrs (read_vars m fresh columns) = Model_constrs m
    /\ Model_constrs_by_name (read_vars m fresh columns) = Model_constrs_by_name m
    /\ Model_status (read_vars m fresh columns) = Model_status m
    /\ Model_cuts (read_vars m fresh columns) = Model_cuts m.
Proof.
  induction columns as [|i rest IH]; intros m; cbn [read_vars map].
  - rewrite app_nil_r. repeat split; reflexivity.
  - destruct (IH (mkModel (Model_addr m) (Model_name m) (Model_solver_name m)
           (Model_solver m) (Model_mipStart m) (Model_constrs m)
           (Model_constrs_by_name m)
           (Model_vars m ++
              [mkVar (Model_addr m) (Z.of_nat i)
                 (solver_var_get_name (Model_solver m) (Z.of_nat i)) (fresh i)])
           (<[solver_var_get_name (Model_solver m) (Z.of_nat i) :=
                mkVar (Model_addr m) (Z.of_nat i)
                  (solver_var_get_name (Model_solver m) (Z.of_nat i)) (fresh i)]>
              (Model_vars_by_name m))
           (Model_cuts_generator m) (Model_threads m) (Model_status m)
           (Model_cuts m)))
      as (Hvars & Hsolver & Haddr & Hconstrs & Hnames & Hstatus & Hcuts).
    cbn [Var_name].
    rewrite Hvars, Hsolver, Haddr, Hconstrs, Hnames, Hstatus, Hcuts.
    cbn [Model_vars Model_solver Model_addr Model_constrs Model_constrs_by_name
         Model_status Model_cuts].
    rewrite <- app_assoc. repeat split; reflexivity.
Qed.

Lemma read_constrs_appends (rows : list nat) :
  forall m : Model S,
    Model_constrs (read_constrs m rows)
    = Model_constrs m
      ++ map (fun i => mkConstr (Model_addr m) (Z.of_nat i)
                         (solver_constr_get_name (Model_solver m) (Z.of_nat i)))
           rows
    /\ Model_solver (read_constrs m rows) = Model_solver m
    /\ Model_addr (read_constrs m rows) = Model_addr m
    /\ Model_vars (read_constrs m rows) = Model_vars m
    /\ Model_vars_by_name (read_constrs m rows) = Model_vars_by_name m
    /\ Model_status (read_constrs m rows) = Model_status m
    /\ Model_cuts (read_constrs m rows) = Model_cuts m.
Proof.
  induction rows as [|i rest IH]; intros m; cbn [read_constrs map].
  - rewrite app_nil_r. repeat split; reflexivity.
  - destruct (IH (mkModel (Model_addr m) (Model_name m) (Model_solver_name m)
           (Model_solver m) (Model_mipStart m)
           (Model_constrs m ++
              [mkConstr (Model_addr m) (Z.of_nat i)
                 (solver_constr_get_name (Model_solver m) (Z.of_nat i))])
           (<[solver_constr_get_name (Model_solver m) (Z.of_nat i) :=
                mkConstr (Model_addr m) (Z.of_nat i)
                  (solver_constr_get_name (Model_solver m) (Z.of_nat i))]>
              (Model_constrs_by_name m))
           (Model_vars m) (Model_vars_by_name m)
           (Model_cuts_generator m) (Model_threads m) (Model_status m)
           (Model_cuts m)))
      as (Hconstrs & Hsolver & Haddr & Hvars & Hnames & Hstatus & Hcuts).
    cbn [Constr_name].
    rewrite Hconstrs, Hsolver, Haddr, Hvars, Hnames, Hstatus, Hcuts.
    cbn [Model_vars Model_solver Model_addr Model_constrs Model_vars_by_name
         Model_status Model_cuts].
    rewrite <- app_assoc. repeat split; reflexivity.
Qed.

Lemma Model_read_status (m : Model S) (path : string) (fresh : nat -> nat) :
  Model_status (Model_read m path fresh) = Model_status m.
Proof.
  unfold Model_read. cbn [set_solver Model_status].
  match goal with
  | |- Model_status (read_constrs ?m0 ?rows) = _ =>
      destruct (read_constrs_appends rows m0) as (_ & _ & _ & _ & _ & -> & _)
  end.
  match goal with
  | |- Model_status (read_vars ?m0 ?fresh0 ?columns) = _ =>
      destruct (read_vars_appends fresh0 columns m0) as (_ & _ & _ & _ & _ & -> & _)
  end.
  reflexivity.
Qed.

(** X18: whatever is done to a model between its construction and the
    first call of [optimize] (variables and constraints added, the objective
    set, [+=], the cuts setting, a file read), its status stays [LOADED] and
    every query of a solution value or of a reduced cost is refused, [x] and
    [xi] with the message of a model that was not optimized. *)
Theorem unoptimized_model_refuses_queries (m : Model S) :
  assembled m ->
  Model_status m = LOADED
  /\ (forall (v : Var) (i : Z),
        refuses_primal m v i "Model was not optimized, solution not available."
        /\ refuses_rc m v).
Proof.
  intros Hm.
  assert (Hstatus : Model_status m = LOADED).
  { induction Hm as [addr name sense0 solver_name
                    |m addr name lb ub obj var_type column _ IH
                    |m arg name _ IH
                    |m cuts _ IH
                    |m m' e _ IH Hrun
                    |m m' other _ IH Hrun
                    |m path fresh _ IH].
    - reflexivity.
    - rewrite Model_add_var_status. exact IH.
    - rewrite Model_add_constr_status. exact IH.
    - exact IH.
    - rewrite (Model_set_objective_status _ _ _ Hrun). exact IH.
    - rewrite (Model___iadd___status _ _ _ Hrun). exact IH.
    - rewrite Model_read_status. exact IH. }
  split; [exact Hstatus|].
  intros v i.
  unfold refuses_primal, refuses_rc, Var_x, Var_xi, Var_rc, solution_guard.
  rewrite Hstatus. repeat split; reflexivity.
Qed.

(** X19: [optimize] stores the status the engine returns and returns the
    same value; it hands the thread count to the engine only when it is not
    0, then the limits, then runs the search; the variables, the constraints,
    the two name maps and the cuts setting are as before.  The queries on the
    model it leaves follow the returned status: at [OPTIMAL] values and
    reduced costs are the engine's, at [FEASIBLE] the values are the engine's
    and the reduced cost is refused. *)
Theorem optimize_then_query (m : Model S) (max_seconds max_nodes max_solutions : bound)
    (v : Var) (i : Z) :
  let prepared :=
    solver_set_processing_limits
      (if (Model_threads m =? 0)%Z then Model_solver m
       else solver_set_num_threads (Model_solver m) (Model_threads m))
      max_seconds max_nodes max_solutions in
  let status := fst (Model_optimize m max_seconds max_nodes max_solutions) in
  let m' := snd (Model_optimize m max_seconds max_nodes max_solutions) in
  status = fst (solver_optimize prepared)
  /\ Model_solver m' = snd (solver_optimize prepared)
  /\ Model_status m' = status
  /\ Model_vars m' = Model_vars m
  /\ Model_vars_by_name m' = Model_vars_by_name m
  /\ Model_constrs m' = Model_constrs m
  /\ Model_constrs_by_name m' = Model_constrs_by_name m
  /\ Model_cuts m' = Model_cuts m
  /\ match status with
     | OPTIMAL => answers_primal m' v i /\ answers_rc m' v
     | FEASIBLE => answers_primal m' v i /\ refuses_rc m' v
     | _ => refuses_rc m' v
     end.
Proof.
  unfold Model_optimize.
  destruct (Model_threads m =? 0)%Z; cbn [negb];
    destruct (solver_optimize _) as [status solver];
    cbn [fst snd Model_solver Model_status Model_vars Model_vars_by_name
         Model_constrs Model_constrs_by_name Model_cuts];
    (do 8 (split; [reflexivity|]));
    unfold answers_primal, answers_rc, refuses_rc, Var_x, Var_xi, Var_rc,
      solution_guard; cbn [Model_status Model_solver];
    destruct status; repeat split; reflexivity.
Qed.

(** X20: [read] does not start from an empty model: it appends one handle
    per column of the engine after the file is loaded, numbered from 0 and
    named by the engine, to the handles the model already has, and one
    constraint handle per row to the constraints it has; so the number of
    handles is the former number plus the number of columns of the engine. *)
Theorem read_appends_handles (m : Model S) (path : string) (fresh : nat -> nat) :
  let loaded := solver_read (Model_solver m) path in
  Model_vars (Model_read m path fresh)
  = Model_vars m
    ++ map (fun i => mkVar (Model_addr m) (Z.of_nat i)
                       (solver_var_get_name loaded (Z.of_nat i)) (fresh i))
         (seq 0 (Z.to_nat (solver_num_cols loaded)))
  /\ Model_constrs (Model_read m path fresh)
     = Model_constrs m
       ++ map (fun i => mkConstr (Model_addr m) (Z.of_nat i)
                          (solver_constr_get_name loaded (Z.of_nat i)))
            (seq 0 (Z.to_nat (solver_num_rows loaded)))
  /\ Model_num_cols (Model_read m path fresh)
     = (Model_num_cols m + Z.to_nat (solver_num_cols loaded))%nat
  /\ Model_solver (Model_read m path fresh)
     = solver_set_objective_sense loaded (solver_get_objective_sense loaded).
Proof.
  unfold Model_read, Model_num_cols. cbv zeta.
  remember (set_solver m (solver_read (Model_solver m) path)) as m0 eqn:Hm0.
  assert (H0s : Model_solver m0 = solver_read (Model_solver m) path)
    by (rewrite Hm0; reflexivity).
  assert (H0a : Model_addr m0 = Model_addr m) by (rewrite Hm0; reflexivity).
  assert (H0v : Model_vars m0 = Model_vars m) by (rewrite Hm0; reflexivity).
  assert (H0c : Model_constrs m0 = Model_constrs m) by (rewrite Hm0; reflexivity).
  destruct (read_vars_appends fresh
              (seq 0 (Z.to_nat (solver_num_cols (Model_solver m0)))) m0)
    as (Hvars & Hsolver & Haddr & Hconstrs & _).
  remember (read_vars m0 fresh (seq 0 (Z.to_nat (solver_num_cols (Model_solver m0)))))
    as m1 eqn:Hm1.
  destruct (read_constrs_appends
              (seq 0 (Z.to_nat (solver_num_rows (Model_solver m0)))) m1)
    as (Hconstrs' & Hsolver' & _ & Hvars' & _).
  remember (read_constrs m1 (seq 0 (Z.to_nat (solver_num_rows (Model_solver m0)))))
    as m2 eqn:Hm2.
  cbn [set_solver Model_vars Model_constrs Model_solver].
  rewrite Hvars', Hconstrs', Hsolver', Hvars, Hconstrs, Hsolver, Haddr,
    H0s, H0a, H0v, H0c.
  repeat split.
  rewrite length_app, length_map, length_seq. reflexivity.
Qed.

(** X21: [m += e] for [e] the result of a comparison ([<=], [>=] or [==]
    of an expression with an operand) is [m.add_constr(e)] under the name "",
    and [m += (e, name)] is [m.add_constr(e, name)]; for [s] the result of
    [xsum] it sets the objective and leaves the constraints as they are,
    with or without a name in the pair. *)
Theorem iadd_constraint_or_objective (m : Model S) (self : LinExpr)
    (other : operand) (e s : LinExpr) (terms : list operand) (name : string) :
  LinExpr___le__ (py_key_eq depth) self other = Ok e
  \/ LinExpr___ge__ (py_key_eq depth) self other = Ok e
  \/ LinExpr___eq__ (py_key_eq depth) self other = Ok e ->
  xsum (py_key_eq depth) terms = Ok s ->
  Model___iadd__ depth m (IExpr e) = Ok (snd (Model_add_constr m (ArgExpr e) ""))
  /\ Model___iadd__ depth m (INamed e name)
     = Ok (snd (Model_add_constr m (ArgExpr e) name))
  /\ Model___iadd__ depth m (IExpr s)
     = Ok (set_solver m (solver_set_objective (Model_solver m) s))
  /\ Model___iadd__ depth m (INamed s name)
     = Ok (set_solver m (solver_set_objective (Model_solver m) s)).
Proof.
  intros Hcmp Hsum.
  assert (He : (String.length (sense e) =? 0)%nat = false).
  { unfold LinExpr___le__, LinExpr___ge__, LinExpr___eq__ in Hcmp.
    destruct (LinExpr___sub__ (py_key_eq depth) self other) as [r|err].
    - rewrite !bind_Ok in Hcmp.
      destruct Hcmp as [Hrun|[Hrun|Hrun]]; injection Hrun as <-; reflexivity.
    - destruct Hcmp as [Hrun|[Hrun|Hrun]]; discriminate. }
  assert (Hs : (String.length (sense s) =? 0)%nat = true).
  { unfold xsum in Hsum. cbn [LinExpr_init] in Hsum. rewrite bind_Ok in Hsum.
    rewrite (xsum_loop_sense _ _ _ _ Hsum). reflexivity. }
  unfold Model___iadd__. rewrite He, Hs.
  repeat split; reflexivity.
Qed.

End ModelRuns.

(** X18 at the model made by [x = m.add_var("x")] and then
    [m.add_constr(x <= 0, "c1")]. *)
Lemma unoptimized_model_refuses_queries_witness :
  assembled recursion_limit (snd (Model_add_constr model_x (ArgExpr x_le_0) "c1"))
  /\ Model_status (snd (Model_add_constr model_x (ArgExpr x_le_0) "c1")) = LOADED
  /\ (forall (v : Var) (i : Z),
        refuses_primal (snd (Model_add_constr model_x (ArgExpr x_le_0) "c1")) v i
          "Model was not optimized, solution not available."
        /\ refuses_rc (snd (Model_add_constr model_x (ArgExpr x_le_0) "c1")) v).
Proof.
  assert (Hm : assembled recursion_limit
                 (snd (Model_add_constr model_x (ArgExpr x_le_0) "c1"))).
  { apply assembled_add_constr. unfold model_x. apply assembled_add_var.
    unfold fresh_model. apply assembled_init. }
  split; [exact Hm|].
  exact (unoptimized_model_refuses_queries recursion_limit _ Hm).
Defined.

(** X21 at [m += (x <= 0)] and [m += xsum([x, y])], with the name "c1" in
    the pairs. *)
Lemma iadd_constraint_or_objective_witness :
  let s := {| const := 0; expr := [(x_var, 1%Q); (y_var, 1%Q)]; sense := "" |} in
  let e := {| const := 0 + - 0; expr := [(x_var, 1%Q)]; sense := "<" |} in
  LinExpr___le__ (py_key_eq recursion_limit) (set_sense x_le_0 "") (ONum 0) = Ok e
  /\ xsum (py_key_eq recursion_limit) [OVar x_var; OVar y_var] = Ok s
  /\ Model___iadd__ recursion_limit model_x (IExpr e)
     = Ok (snd (Model_add_constr model_x (ArgExpr e) ""))
  /\ Model___iadd__ recursion_limit model_x (INamed e "c1")
     = Ok (snd (Model_add_constr model_x (ArgExpr e) "c1"))
  /\ Model___iadd__ recursion_limit model_x (IExpr s)
     = Ok (set_solver model_x (solver_set_objective (Model_solver model_x) s))
  /\ Model___iadd__ recursion_limit model_x (INamed s "c1")
     = Ok (set_solver model_x (solver_set_objective (Model_solver model_x) s)).
Proof.
  intros s e.
  assert (He : LinExpr___le__ (py_key_eq recursion_limit) (set_sense x_le_0 "") (ONum 0)
               = Ok e) by reflexivity.
  assert (Hs : xsum (py_key_eq recursion_limit) [OVar x_var; OVar y_var] = Ok s)
    by (vm_compute; reflexivity).
  split; [exact He|]. split; [exact Hs|].
  exact (iadd_constraint_or_objective recursion_limit model_x (set_sense x_le_0 "")
           (ONum 0) e s [OVar x_var; OVar y_var] "c1" (or_introl He) Hs).
Defined.

(** The name U+00A0 followed by a space. *)
Definition nbsp_name : string := String (ascii_of_nat 160) " ".

(** X15 at the model with the one variable [x]: [m.add_var(name)] for the
    name made of U+00A0 and a space, and [m.add_var("y")]. *)
Lemma add_var_registers_witness :
  Forall is_white (list_ascii_of_string nbsp_name)
  /\ (0 <= solver_num_cols (Model_solver model_x) < 10 ^ 11)%Z
  /\ Exists (fun a => ~ is_white a) (list_ascii_of_string "y")
  /\ (exists digits : string,
        Var_name (fst (Model_add_var model_x 11 nbsp_name (Finite 0) PosInf 0
                         CONTINUOUS None))
        = String "C" digits
        /\ decimal digits = Some 1%Z
        /\ String.length digits = 11%nat)
  /\ Var_name (fst (Model_add_var model_x 11 "y" (Finite 0) PosInf 0
                      CONTINUOUS None)) = "y".
Proof.
  assert (Hwhite : Forall is_white (list_ascii_of_string nbsp_name)).
  { apply blank_all_white. reflexivity. }
  assert (Hcols : (0 <= solver_num_cols (Model_solver model_x) < 10 ^ 11)%Z)
    by (vm_compute; split; [discriminate|reflexivity]).
  assert (Hy : Exists (fun a => ~ is_white a) (list_ascii_of_string "y")).
  { apply blank_some_not_white. reflexivity. }
  split; [exact Hwhite|]. split; [exact Hcols|]. split; [exact Hy|].
  split.
  - destruct (add_var_registers model_x 11 nbsp_name (Finite 0) PosInf 0
                CONTINUOUS None)
      as (v & m' & Hrun & _ & Hblank & _).
    rewrite Hrun. cbn [fst].
    destruct (Hblank Hwhite (proj1 Hcols)) as (digits & Hname & Hvalue & _ & Hwidth).
    exists digits. split; [exact Hname|]. split; [exact Hvalue|].
    apply Hwidth, Hcols.
  - destruct (add_var_registers model_x 11 "y" (Finite 0) PosInf 0
                CONTINUOUS None)
      as (v & m' & Hrun & Hgiven & _).
    rewrite Hrun. cbn [fst]. apply Hgiven, Hy.
Defined.

(** The names themselves, computed: the second column of the model is
    registered as "C00000000001". *)
Example add_var_blank_name :
  Var_name (fst (Model_add_var model_x 11 nbsp_name (Finite 0) PosInf 0
                   CONTINUOUS None)) = "C00000000001"
  /\ Var_name (fst (Model_add_var model_x 11 "" (Finite 0) PosInf 0
                      CONTINUOUS None)) = "C00000000001"
  /\ Var_name (fst (Model_add_var fresh_model 10 "   " (Finite 0) PosInf 0
                      CONTINUOUS None)) = "C00000000000".
Proof. repeat split; vm_compute; reflexivity. Qed.
